(** * discuss.ts: the review-comment store and its reconciliation

    A shallow embedding of the comment manager [discuss.ts]: the SQLite
    tables [comments] and [replies] as finite maps keyed by the primary
    key, every SQL statement of the script as a function on these maps, and
    the commands as programs of a small state-and-exit monad that also
    records what is printed and which remote calls are attempted.

    JavaScript strings are modelled by [string]; the markers and bodies are
    taken in UTF-8.  [split] on a newline and [includes] of a well-formed
    marker agree on the UTF-8 and the UTF-16 form of well-formed text. *)

From stdpp Require Import gmap strings list fin_maps sorting.
From Stdlib Require Import ZArith Lia.

Local Open Scope string_scope.
Local Open Scope Z_scope.

(** ** Constants and configuration *)

Definition DEFAULT_PR : string := "24063".
Definition SCRIPT_NAME : string := "discuss.ts".

(** [Object.entries] enumerates string keys in insertion order, so each
    table is the list of its entries as written. *)
Definition PRIORITY_MARKERS : list (string * string) :=
  [ ("⚠️ Potential issue", "issue");
    ("🛠️ Refactor suggestion", "refactor");
    ("🧹 Nitpick", "nitpick") ].

Definition SEVERITY_MARKERS : list (string * string) :=
  [ ("🔴 Critical", "critical");
    ("🟠 Major", "major");
    ("🟡 Minor", "minor");
    ("🔵 Trivial", "trivial") ].

(** ** Types and interfaces *)

(** One row of the table [comments].  The columns declared [NOT NULL] hold a
    value, the others an [option]; the 0/1 integer columns are booleans.
    [cid] is the column [id]. *)
Record Comment := mkComment {
  cid : Z;
  path : string;
  line : option Z;
  body : string;
  priority : string;
  severity : string;
  outdated : bool;
  created_at : string;
  updated_at : string;
  user : string;
  first_seen : string;
  thread_id : option string;
  github_resolved : bool;
  resolved_commit : option string;
  waiting_reply : bool;
  snoozed_reply_count : option Z;
  notes : option string
}.

(** One row of the table [replies]. *)
Record Reply := mkReply {
  r_id : Z;
  r_in_reply_to_id : Z;
  r_body : string;
  r_user : string;
  r_created_at : string;
  r_updated_at : string
}.

Record ThreadInfo := mkThreadInfo {
  threadId : string;
  isResolved : bool;
  isOutdated : bool
}.

(** A review comment as the REST listing returns it ([any] in the script);
    only the fields the script reads.  The record is the shape of a
    well-formed entry: one without [user], or without a value for a
    [NOT NULL] column, makes the upsert throw, and has no counterpart
    here. *)
Record GhComment := mkGhComment {
  gh_id : Z;
  gh_path : string;
  gh_line : option Z;
  gh_body : string;
  gh_created_at : string;
  gh_updated_at : string;
  gh_user_login : string;
  gh_in_reply_to_id : option Z
}.

(** The database: both tables, keyed by their [INTEGER PRIMARY KEY]. *)
Record Store := mkStore {
  comments : gmap Z Comment;
  replies : gmap Z Reply
}.

Definition empty_store : Store := mkStore ∅ ∅.

(** ** String utilities of JavaScript *)

(** [s.includes(m)] *)
Fixpoint includes (s m : string) : bool :=
  String.prefix m s ||
  match s with
  | EmptyString => false
  | String _ s' => includes s' m
  end.

(** [s.startsWith(m)] *)
Definition startsWith (s m : string) : bool := String.prefix m s.

Definition newline : Ascii.ascii := Ascii.ascii_of_nat 10.

(** [s.split("\n")]: never empty, one more piece than there are newlines. *)
Fixpoint split_lines (s : string) : list string :=
  match s with
  | EmptyString => [EmptyString]
  | String c s' =>
      if Ascii.eqb c newline then EmptyString :: split_lines s'
      else match split_lines s' with
           | [] => [String c EmptyString]
           | l :: ls => String c l :: ls
           end
  end.

(** [x || ""] for a possibly missing string. *)
Definition or_empty (o : option string) : string :=
  match o with
  | Some EmptyString | None => EmptyString
  | Some s => s
  end.

(** SQL [COALESCE(x, d)]. *)
Definition COALESCE {A} (x : option A) (d : A) : A :=
  match x with Some v => v | None => d end.

(** Truthiness of a nullable JavaScript number and of a nullable string. *)
Definition truthy_num (o : option Z) : bool :=
  match o with Some n => negb (n =? 0) | None => false end.

Definition truthy_str (o : option string) : bool :=
  match o with Some EmptyString | None => false | Some _ => true end.

(** [s.split(" ")[0]] *)
Fixpoint before_space (s : string) : string :=
  match s with
  | EmptyString => EmptyString
  | String c s' =>
      if Ascii.eqb c (Ascii.ascii_of_nat 32) then EmptyString
      else String c (before_space s')
  end.

(** ** Parsing *)

(** The loop [for (const [marker, val] of Object.entries(table))] with its
    [break] at the first marker found. *)
Fixpoint scan_markers (table : list (string * string)) (firstLine : string)
    (found : string) : string :=
  match table with
  | [] => found
  | (marker, val) :: rest =>
      if includes firstLine marker then val
      else scan_markers rest firstLine found
  end.

Definition first_line (body : string) : string :=
  or_empty (head (split_lines body)).

Definition parseComment (body : string) : string * string :=
  let firstLine := first_line body in
  let priority := scan_markers PRIORITY_MARKERS firstLine "unknown" in
  let severity := scan_markers SEVERITY_MARKERS firstLine "unknown" in
  (priority, severity).

(** ** Data operations *)

Definition getComment (id : Z) (s : Store) : option Comment :=
  comments s !! id.

(** [SELECT COUNT( * ) FROM replies WHERE in_reply_to_id = ?] *)
Definition getReplyCount (commentId : Z) (s : Store) : Z :=
  Z.of_nat (length (filter (λ kr, r_in_reply_to_id kr.2 = commentId)
                           (map_to_list (replies s)))).

(** [SELECT id, snoozed_reply_count FROM comments WHERE waiting_reply = 1] *)
Definition getSnoozedComments (s : Store) : list (Z * option Z) :=
  (λ kc, (kc.1, snoozed_reply_count kc.2)) <$>
  filter (λ kc, waiting_reply kc.2 = true) (map_to_list (comments s)).

(** The row that [INSERT OR REPLACE] writes.  The sub-selects of the
    [VALUES] clause are evaluated against the table as it is before the
    statement, that is, against [existing]. *)
Definition upsert_row (comment : GhComment) (threadInfo : option ThreadInfo)
    (now : string) (existing : option Comment) : Comment :=
  let '(priority, severity) := parseComment (gh_body comment) in
  let info_threadId := threadId <$> threadInfo in
  let info_isResolved := from_option isResolved false threadInfo in
  let info_isOutdated := from_option isOutdated false threadInfo in
  {| cid := gh_id comment;
     path := gh_path comment;
     line := gh_line comment;
     body := gh_body comment;
     priority := priority;
     severity := severity;
     outdated := info_isOutdated;
     created_at := gh_created_at comment;
     updated_at := gh_updated_at comment;
     user := gh_user_login comment;
     first_seen := COALESCE (first_seen <$> existing) now;
     thread_id := info_threadId;
     github_resolved := info_isResolved;
     resolved_commit := existing ≫= resolved_commit;
     waiting_reply := COALESCE (waiting_reply <$> existing) false;
     snoozed_reply_count := Some (COALESCE (existing ≫= snoozed_reply_count) 0);
     notes := existing ≫= notes |}.

Definition upsertComment (comment : GhComment) (threadInfo : option ThreadInfo)
    (now : string) (s : Store) : Store * bool :=
  let existing := comments s !! gh_id comment in
  let row := upsert_row comment threadInfo now existing in
  (mkStore (<[gh_id comment := row]> (comments s)) (replies s),
   negb (bool_decide (is_Some existing))).

(** [in_reply_to_id] is [NOT NULL]: binding a missing value makes the
    statement throw ([None]). *)
Definition upsertReply (reply : GhComment) (s : Store) : option Store :=
  parent ← gh_in_reply_to_id reply;
  let row := {| r_id := gh_id reply;
                r_in_reply_to_id := parent;
                r_body := gh_body reply;
                r_user := gh_user_login reply;
                r_created_at := gh_created_at reply;
                r_updated_at := gh_updated_at reply |} in
  Some (mkStore (comments s) (<[gh_id reply := row]> (replies s))).

(** [UPDATE comments SET waiting_reply = 0, snoozed_reply_count = 0 ...] on
    one row. *)
Definition clear_snooze (c : Comment) : Comment :=
  {| cid := cid c; path := path c; line := line c; body := body c;
     priority := priority c; severity := severity c; outdated := outdated c;
     created_at := created_at c; updated_at := updated_at c; user := user c;
     first_seen := first_seen c; thread_id := thread_id c;
     github_resolved := github_resolved c;
     resolved_commit := resolved_commit c;
     waiting_reply := false;
     snoozed_reply_count := Some 0;
     notes := notes c |}.

(** [UPDATE comments SET waiting_reply = 1, snoozed_reply_count = ? ...] on
    one row. *)
Definition set_snooze (count : Z) (c : Comment) : Comment :=
  {| cid := cid c; path := path c; line := line c; body := body c;
     priority := priority c; severity := severity c; outdated := outdated c;
     created_at := created_at c; updated_at := updated_at c; user := user c;
     first_seen := first_seen c; thread_id := thread_id c;
     github_resolved := github_resolved c;
     resolved_commit := resolved_commit c;
     waiting_reply := true;
     snoozed_reply_count := Some count;
     notes := notes c |}.

(** [... WHERE id = ?]: the statement on the row of that key, if any; the
    second component is [result.changes]. *)
Definition update_where_id (f : Comment → Comment) (id : Z) (s : Store)
    : Store * Z :=
  (mkStore (alter f id (comments s)) (replies s),
   if bool_decide (is_Some (comments s !! id)) then 1 else 0).

(** One turn of the loop of [processAutoUnsnooze].  A [NULL] count compares
    as 0, as [n > null] does in JavaScript. *)
Definition unsnooze_step (acc : Store * Z) (snoozed : Z * option Z)
    : Store * Z :=
  let '(s, unsnoozedCount) := acc in
  let currentReplyCount := getReplyCount snoozed.1 s in
  if bool_decide (currentReplyCount > COALESCE snoozed.2 0)
  then ((update_where_id clear_snooze snoozed.1 s).1, unsnoozedCount + 1)
  else (s, unsnoozedCount).

Definition processAutoUnsnooze (s : Store) : Store * Z :=
  foldl unsnooze_step (s, 0) (getSnoozedComments s).

(** The three columns [updateCommentField] is called with. *)
Inductive Field :=
| F_notes (value : option string)
| F_thread_id (value : option string)
| F_resolved_commit (value : option string).

Definition set_field (fv : Field) (c : Comment) : Comment :=
  {| cid := cid c; path := path c; line := line c; body := body c;
     priority := priority c; severity := severity c; outdated := outdated c;
     created_at := created_at c; updated_at := updated_at c; user := user c;
     first_seen := first_seen c;
     thread_id := match fv with F_thread_id v => v | _ => thread_id c end;
     github_resolved := github_resolved c;
     resolved_commit :=
       match fv with F_resolved_commit v => v | _ => resolved_commit c end;
     waiting_reply := waiting_reply c;
     snoozed_reply_count := snoozed_reply_count c;
     notes := match fv with F_notes v => v | _ => notes c end |}.

Definition updateCommentField (id : Z) (fv : Field) (s : Store) : Store :=
  (update_where_id (set_field fv) id s).1.

Definition clearStaleThreadId (id : Z) (s : Store) : Store :=
  updateCommentField id (F_thread_id None) s.

(** [UPDATE comments SET waiting_reply = 0, snoozed_reply_count = 0
     WHERE waiting_reply = 1] *)
Definition unsnooze_all_rows (s : Store) : Store * Z :=
  (mkStore ((λ c, if waiting_reply c then clear_snooze c else c) <$> comments s)
           (replies s),
   Z.of_nat (length (filter (λ kc, waiting_reply kc.2 = true)
                            (map_to_list (comments s))))).

(** ** The outside world

    What [gh], [git], the clock and the file system answer.  Every answer
    is indexed by [tick], the number of outside calls made so far, so that
    two calls of one command may be answered differently. *)

Record GqlError := mkGqlError { e_type : option string }.

Record ThreadPayload := mkThreadPayload { tp_isResolved : bool }.

(** The JSON body of a GraphQL answer: [data.resolveReviewThread.thread],
    [data.unresolveReviewThread.thread] and [errors], each possibly
    missing. *)
Record GraphQLResult := mkGraphQLResult {
  data_resolveReviewThread : option ThreadPayload;
  data_unresolveReviewThread : option ThreadPayload;
  errors : option (list GqlError)
}.

(** A thrown JavaScript value.  A failed shell command carries its
    [stdout]: [None] when it is missing, [Some None] when [JSON.parse]
    rejects it, [Some (Some r)] when it parses to [r]. *)
Inductive JsError :=
| ShellError (stdout : option (option GraphQLResult))
| OtherError.

Inductive ShellReply (A : Type) :=
| Json (result : A)
| Throws (error : JsError).
Arguments Json {A} result.
Arguments Throws {A} error.

Record GhThreadComment := mkGhThreadComment {
  databaseId : Z;
  tc_outdated : bool
}.

Record GhThread := mkGhThread {
  th_id : string;
  th_isResolved : bool;
  th_isOutdated : bool;
  th_comments : list GhThreadComment
}.

Record PageInfo := mkPageInfo {
  hasNextPage : bool;
  endCursor : option string
}.

Record ThreadsPage := mkThreadsPage {
  nodes : option (list GhThread);
  pageInfo : option PageInfo
}.

(** The REST listing: an array of comments, or some other JSON value. *)
Inductive RestResult :=
| RestArray (l : list GhComment)
| RestNotArray.

Record World := mkWorld {
  (** [gh api repos/REPO/pulls/Num/comments --paginate] *)
  gh_pr_comments : nat → string → ShellReply RestResult;
  (** the successive pages of [reviewThreads] the provider serves for one
      walk, in order; a request past the last one is not answered *)
  gh_review_threads : nat → string → list (ShellReply ThreadsPage);
  (** [gh api graphql -F threadId=... -f query=...] *)
  gh_graphql_mutation : nat → string → string → ShellReply GraphQLResult;
  (** the POST of a reply: [true] when the command succeeds *)
  gh_post_reply : nat → Z → string → string → bool;
  (** [new Date().toISOString()] *)
  clock_now : nat → string;
  (** [new Date(s).getTime()]; [None] for an invalid date *)
  date_parse : string → option Z;
  (** [Bun.file(path).exists()]; [None] when it throws *)
  file_exists : nat → string → option bool;
  (** [Bun.file(path).lastModified], in milliseconds *)
  file_lastModified : nat → string → Z;
  (** [git log --oneline -5 -- path], already split in lines *)
  git_log : nat → string → option (list string)
}.

(** ** Commands: state, output and exit *)

(** A piece of a template literal: text, an interpolated number, or a
    printed error value. *)
Inductive Frag := T (s : string) | Num (n : Z) | E (e : JsError).

Inductive GhCall :=
| GhListComments (prNumber : string)
| GhReviewThreads (prNumber : string) (page : Z)
| GhMutation (mutation threadId : string)
| GhPostReply (id : Z) (replyBody prNumber : string)
| GitLog (file : string).

Inductive Event :=
| Log (l : list Frag)
| Warn (l : list Frag)
| Error (l : list Frag)
| Call (c : GhCall).

Record State := mkState {
  db : Store;
  tick : nat;
  out : list Event;
  deferredLogs : list (list Frag)
}.

Inductive Result (A : Type) :=
| Ret (a : A)
| Throw (error : JsError)
| Exit (code : Z).
Arguments Ret {A} a.
Arguments Throw {A} error.
Arguments Exit {A} code.

Definition M (A : Type) : Type := State → Result A * State.

#[export] Instance M_ret : MRet M := λ A a st, (Ret a, st).

#[export] Instance M_bind : MBind M := λ A B k m st,
  match m st with
  | (Ret a, st') => k a st'
  | (Throw e, st') => (Throw e, st')
  | (Exit c, st') => (Exit c, st')
  end.

Definition throw {A} (e : JsError) : M A := λ st, (Throw e, st).

(** [process.exit(code)] *)
Definition process_exit {A} (code : Z) : M A := λ st, (Exit code, st).

(** [try { m } catch (error) { handler error }] *)
Definition try_catch {A} (m : M A) (handler : JsError → M A) : M A := λ st,
  match m st with
  | (Throw e, st') => handler e st'
  | r => r
  end.

Definition emit (e : Event) : M unit := λ st,
  (Ret tt, mkState (db st) (tick st) (out st ++ [e]) (deferredLogs st)).

Definition console_log (l : list Frag) : M unit := emit (Log l).
Definition console_warn (l : list Frag) : M unit := emit (Warn l).
Definition console_error (l : list Frag) : M unit := emit (Error l).

(** An outside call: its answer is the world's at the current tick. *)
Definition outside {A} (c : option GhCall) (answer : nat → A) : M A := λ st,
  (Ret (answer (tick st)),
   mkState (db st) (S (tick st))
           (out st ++ match c with Some c => [Call c] | None => [] end)
           (deferredLogs st)).

Definition shell {A} (c : GhCall) (answer : nat → ShellReply A) : M A :=
  r ← outside (Some c) answer;
  match r with
  | Json result => mret result
  | Throws e => throw e
  end.

Definition query {A} (f : Store → A) : M A := λ st, (Ret (f (db st)), st).

Definition exec {A} (f : Store → Store * A) : M A := λ st,
  let '(s, a) := f (db st) in
  (Ret a, mkState s (tick st) (out st) (deferredLogs st)).

Definition exec_ (f : Store → Store) : M unit := exec (λ s, (f s, tt)).

(** A statement that the database may reject, which throws. *)
Definition exec_or_throw (f : Store → option Store) : M unit := λ st,
  match f (db st) with
  | Some s => (Ret tt, mkState s (tick st) (out st) (deferredLogs st))
  | None => (Throw OtherError, st)
  end.

Fixpoint for_each {A} (l : list A) (f : A → M unit) : M unit :=
  match l with
  | [] => mret tt
  | x :: rest => f x;; for_each rest f
  end.

Definition when (b : bool) (m : M unit) : M unit := if b then m else mret tt.

(** ** Utilities *)

Definition deferLog (x : list Frag) : M unit := λ st,
  (Ret tt, mkState (db st) (tick st) (out st) (deferredLogs st ++ [x])).

(** [using _1 = printAtTheEnd()] around a block: when the block is left,
    by its end or by a throw, every deferred line is printed;
    [process.exit] leaves no time for it.  The array is never emptied. *)
Definition printAtTheEnd {A} (block : M A) : M A := λ st,
  let flush st' :=
    mkState (db st') (tick st') (out st' ++ (Log <$> deferredLogs st'))
            (deferredLogs st') in
  match block st with
  | (Exit c, st') => (Exit c, st')
  | (r, st') => (r, flush st')
  end.

Definition formatLineInfo (line : option Z) : list Frag :=
  match line with
  | Some n => if truthy_num line then [T ":"; Num n] else []
  | None => []
  end.

Section Commands.

Variable w : World.

(** Display helpers of the script whose text processing plays no part in
    the store: [extractSuggestion], [truncate] and the lines that
    [showComment] prints for a stored comment. *)
Variable extractSuggestion : string → string.
Variable truncate : string → nat → string.
Variable showComment_lines : Store → Z → list (list Frag).

(** ** GitHub API: GraphQL *)

(** [boolean | "stale"], the result of a mutation. *)
Inductive boolean_or_stale := JsTrue | JsStale | JsFalse.

(** [result.errors?.some(e => e.type === "NOT_FOUND")] *)
Definition some_NOT_FOUND (result : GraphQLResult) : bool :=
  match errors result with
  | Some es => existsb (λ e, bool_decide (e_type e = Some "NOT_FOUND")) es
  | None => false
  end.

Definition executeGraphQLMutation (mutation threadId operationName : string)
    : M boolean_or_stale :=
  if bool_decide (threadId = "") then
    console_warn [T "⚠️ No thread ID to "; T operationName];;
    mret JsFalse
  else
    try_catch
      (result ← shell (GhMutation mutation threadId)
                      (λ t, gh_graphql_mutation w t mutation threadId);
       let threadData :=
         match data_resolveReviewThread result with
         | Some t => Some t
         | None => data_unresolveReviewThread result
         end in
       let expectedResolved := bool_decide (operationName = "resolve") in
       if match threadData with
          | Some t => bool_decide (tp_isResolved t = expectedResolved)
          | None => false
          end
       then
         console_log [T "✅ ";
                      T (if bool_decide (operationName = "resolve")
                         then "Resolved" else "Unresolved");
                      T " thread on GitHub: "; T threadId];;
         mret JsTrue
       else if some_NOT_FOUND result then
         console_warn [T "⚠️ Thread ID is stale (comment may have been deleted): ";
                       T threadId];;
         mret JsStale
       else
         console_warn [T "⚠️ Failed to "; T operationName; T " thread: ";
                       T threadId];;
         mret JsFalse)
      (λ error,
         let generic : M boolean_or_stale :=
           console_error [T "❌ Error "; T operationName; T "ing thread:";
                          E error];;
           mret JsFalse in
         match error with
         | ShellError (Some (Some result)) =>
             if some_NOT_FOUND result then
               console_warn
                 [T "⚠️ Thread ID is stale (comment may have been deleted): ";
                  T threadId];;
               mret JsStale
             else generic
         | _ => generic
         end).

Definition ResolveThread : string := "
    mutation ResolveThread($threadId: ID!) {
      resolveReviewThread(input: { threadId: $threadId }) {
        thread {
          id
          isResolved
        }
      }
    }".

Definition UnresolveThread : string := "
    mutation UnresolveThread($threadId: ID!) {
      unresolveReviewThread(input: { threadId: $threadId }) {
        thread {
          id
          isResolved
        }
      }
    }".

Definition resolveThreadOnGitHub (threadId : string) : M boolean_or_stale :=
  executeGraphQLMutation ResolveThread threadId "resolve".

Definition unresolveThreadOnGitHub (threadId : string) : M boolean_or_stale :=
  executeGraphQLMutation UnresolveThread threadId "unresolve".

(** The two nested loops over one page: [threadInfo.set] for every comment
    of every thread. *)
Definition record_thread (threadInfo : gmap Z ThreadInfo) (thread : GhThread)
    : gmap Z ThreadInfo :=
  foldl (λ m comment,
           <[databaseId comment :=
               {| threadId := th_id thread;
                  isResolved := th_isResolved thread;
                  isOutdated := tc_outdated comment |}]> m)
        threadInfo (th_comments thread).

(** The [while (hasNextPage)] loop, one turn per page served.  The cursor
    is only handed back to the provider, which serves the pages in order. *)
Fixpoint walk_pages (prNumber : string) (pages : list (ShellReply ThreadsPage))
    (pageCount : Z) (threadInfo : gmap Z ThreadInfo)
    : M (gmap Z ThreadInfo * Z) :=
  let pageCount := pageCount + 1 in
  emit (Call (GhReviewThreads prNumber pageCount));;
  match pages with
  | [] => throw (ShellError None)
  | Throws e :: _ => throw e
  | Json threadsResult :: rest =>
      let threads := COALESCE (nodes threadsResult) [] in
      deferLog [T "   Page "; Num pageCount; T ": Found ";
                Num (Z.of_nat (length threads)); T " threads"];;
      let threadInfo := foldl record_thread threadInfo threads in
      if COALESCE (hasNextPage <$> pageInfo threadsResult) false
      then walk_pages prNumber rest pageCount threadInfo
      else mret (threadInfo, pageCount)
  end.

Definition fetchThreadMetadata (prNumber : string) : M (gmap Z ThreadInfo) :=
  pages ← outside None (λ t, gh_review_threads w t prNumber);
  '(threadInfo, pageCount) ← walk_pages prNumber pages 0 ∅;
  deferLog [T "   Total: "; Num (Z.of_nat (size threadInfo));
            T " comments mapped to threads across "; Num pageCount; T " pages"];;
  mret threadInfo.

(** ** GitHub API: REST *)

Definition fetchPRComments (prNumber : string)
    : M (list GhComment * list GhComment) :=
  result ← shell (GhListComments prNumber) (λ t, gh_pr_comments w t prNumber);
  let comments :=
    match result with RestArray l => l | RestNotArray => [] end in
  let topLevel :=
    filter (λ c, truthy_num (gh_in_reply_to_id c) = false) comments in
  let replies :=
    filter (λ c, truthy_num (gh_in_reply_to_id c) = true) comments in
  mret (topLevel, replies).

Definition postCommentReply (id : Z) (replyBody prNumber : string) : M unit :=
  ok ← outside (Some (GhPostReply id replyBody prNumber))
               (λ t, gh_post_reply w t id replyBody prNumber);
  if ok : bool then mret tt else throw (ShellError None).

(** ** Business logic: fetch *)

Definition rows (s : Store) : list Comment := (map_to_list (comments s)).*2.

(** [github_resolved = 0 AND waiting_reply = 0] *)
Definition pending (c : Comment) : Prop :=
  github_resolved c = false ∧ waiting_reply c = false.

#[export] Instance pending_dec c : Decision (pending c).
Proof. unfold pending. apply _. Defined.

(** [buildSeverityOrderClause] *)
Definition severity_order (severity : string) : Z :=
  if bool_decide (severity = "critical") then 1
  else if bool_decide (severity = "major") then 2
  else if bool_decide (severity = "minor") then 3
  else if bool_decide (severity = "trivial") then 4
  else 5.

(** [ORDER BY] the severity order, and [ORDER BY path] (byte order). *)
Definition severity_le (a b : string) : Prop :=
  severity_order a ≤ severity_order b.

#[export] Instance severity_le_dec a b : Decision (severity_le a b).
Proof. unfold severity_le. apply _. Defined.

Definition path_le (a b : Comment) : Prop :=
  String.leb (path a) (path b) = true.

#[export] Instance path_le_dec a b : Decision (path_le a b).
Proof. unfold path_le. apply _. Defined.

Definition sum_Z (l : list Z) : Z := foldr Z.add 0 l.

(** [SELECT severity, SUM(CASE WHEN pending THEN 1 ELSE 0 END)
     FROM comments GROUP BY severity ORDER BY (severity order)] *)
Definition statusStats (s : Store) : list (string * Z) :=
  let groups :=
    merge_sort severity_le (remove_dups (severity <$> rows s)) in
  (λ sev,
     (sev, sum_Z ((λ c, if bool_decide (pending c) then 1 else 0) <$>
                  filter (λ c, severity c = sev) (rows s)))) <$> groups.

(** [stats.find(r => r.severity === sev)?.pending_count || 0] *)
Definition pending_count_of (stats : list (string * Z)) (sev : string) : Z :=
  match List.find (λ r, bool_decide (r.1 = sev)) stats with
  | Some r => if r.2 =? 0 then 0 else r.2
  | None => 0
  end.

(** [SELECT id, path, line, body FROM comments
     WHERE severity = 'critical' AND github_resolved = 0 AND waiting_reply = 0
     ORDER BY path LIMIT 5] *)
Definition critical_pending (c : Comment) : Prop :=
  severity c = "critical" ∧ pending c.

#[export] Instance critical_pending_dec c : Decision (critical_pending c).
Proof. unfold critical_pending. apply _. Defined.

Definition criticalItems (s : Store) : list Comment :=
  take 5 (merge_sort path_le (filter critical_pending (rows s))).

Definition critical_item_lines (item : Comment) : list (list Frag) :=
  ([T "   ["; Num (cid item); T "] "; T (path item)]
     ++ formatLineInfo (line item))%list
  :: (let suggestion := extractSuggestion (body item) in
      if bool_decide (suggestion = "") then []
      else [[T "       → "; T (truncate suggestion 80)]]).

Definition printCriticalPreview (criticalCount : Z) : M unit :=
  criticalItems ← query criticalItems;
  console_log [T "
🔴 Next: "; Num criticalCount; T " Critical Item";
               T (if criticalCount =? 1 then "" else "s")];;
  for_each criticalItems
    (λ item, for_each (critical_item_lines item) console_log);;
  when (bool_decide (criticalCount > 5))
    (console_log [T "   ... ("; Num (criticalCount - 5);
                  T " more critical items)"]);;
  console_log [T "
💡 Run 'bun "; T SCRIPT_NAME; T " pending --priority critical' to see all"].

Definition printFetchSummary (resolvedCount outdatedCount : Z) : M unit :=
  statusStats ← query statusStats;
  let totalPending := foldl (λ sum row, sum + row.2) 0 statusStats in
  let criticalCount := pending_count_of statusStats "critical" in
  let majorCount := pending_count_of statusStats "major" in
  let minorCount := pending_count_of statusStats "minor" in
  let trivialCount := pending_count_of statusStats "trivial" in
  console_log [T "📊 Current Status:"];;
  console_log [T "   ⏳ "; Num totalPending; T " pending (";
               Num criticalCount; T " 🔴 critical, ";
               Num majorCount; T " 🟠 major, ";
               Num minorCount; T " 🟡 minor, ";
               Num trivialCount; T " 🔵 trivial)"];;
  console_log [T "   ✅ "; Num resolvedCount; T " threads resolved ⚠️  ";
               Num outdatedCount; T " comments outdated"];;
  when (bool_decide (criticalCount > 0)) (printCriticalPreview criticalCount).

(** Step 3 of [fetchComments]: the loop over the top-level comments, with
    its two counters. *)
Definition store_comments (comments : list GhComment)
    (threadInfo : gmap Z ThreadInfo) (now : string) (s : Store)
    : Store * (Z * Z) :=
  foldl (λ '(s, (newCount, updatedCount)) comment,
           let info := threadInfo !! gh_id comment in
           let '(s', wasNew) := upsertComment comment info now s in
           if wasNew : bool then (s', (newCount + 1, updatedCount))
           else (s', (newCount, updatedCount + 1)))
        (s, (0, 0)) comments.

(** Step 4: the loop over the replies; a failing statement throws. *)
Definition store_reply (reply : GhComment) : M unit :=
  exec_or_throw (upsertReply reply).

(** [Array.from(threadInfo.values()).filter(p).length] *)
Definition count_values (p : ThreadInfo → bool) (threadInfo : gmap Z ThreadInfo)
    : Z :=
  Z.of_nat (length (filter (λ t, p t = true) (map_to_list threadInfo).*2)).

Definition fetchComments (prNumber : string) : M unit :=
  console_log [T "📥 Fetching comments for PR #"; T prNumber; T "..."];;
  try_catch
    (printAtTheEnd
       ('(comments, replies) ← fetchPRComments prNumber;
        deferLog [T "   Found "; Num (Z.of_nat (length comments));
                  T " top-level comments, "; Num (Z.of_nat (length replies));
                  T " replies"];;
        threadInfo ← fetchThreadMetadata prNumber;
        now ← outside None (clock_now w);
        '(newCount, updatedCount) ← exec (store_comments comments threadInfo now);
        for_each replies store_reply;;
        unsnoozedCount ← exec processAutoUnsnooze;
        let resolvedCount := count_values isResolved threadInfo in
        let outdatedCount := count_values isOutdated threadInfo in
        console_log [T "➡️  Imported "; Num newCount; T " new, 🔂 updated ";
                     Num updatedCount; T " existing comments, 📥 ";
                     Num (Z.of_nat (length replies)); T " replies"];;
        when (bool_decide (unsnoozedCount > 0))
          (console_log [T "   🔔 Auto-unsnoozed "; Num unsnoozedCount;
                        T " comments with new replies"]);;
        printFetchSummary resolvedCount outdatedCount))
    (λ error,
       console_error [T "❌ Failed to fetch comments:"; E error];;
       process_exit 1).

(** ** Business logic: state management

    A comment id given on the command line is taken after [parseInt]. *)

Definition addNote (id : Z) (noteText : string) : M unit :=
  existing ← query (getComment id);
  match existing with
  | None =>
      console_error [T "❌ Comment #"; Num id; T " not found"];;
      process_exit 1
  | Some existing =>
      timestamp ← outside None (clock_now w);
      let newNote := String.append "[" (String.append timestamp
                       (String.append "] " noteText)) in
      let updatedNotes :=
        match notes existing with
        | Some old =>
            if truthy_str (Some old)
            then String.append old (String (newline) newNote)
            else newNote
        | None => newNote
        end in
      exec_ (updateCommentField id (F_notes (Some updatedNotes)));;
      console_log [T "✅ Added note to comment #"; Num id]
  end.

Definition replyToComment (id : Z) (replyBody : string) : M unit :=
  console_log [T "💬 Replying to comment #"; Num id; T "..."];;
  try_catch
    (comment ← query (getComment id);
     match comment with
     | None =>
         console_error [T "❌ Comment #"; Num id; T " not found in database"];;
         process_exit 1
     | Some _ =>
         allComments ← shell (GhListComments DEFAULT_PR)
                             (λ t, gh_pr_comments w t DEFAULT_PR);
         let ghComment :=
           match allComments with
           | RestArray l => List.find (λ c, bool_decide (gh_id c = id)) l
           | RestNotArray => None
           end in
         match ghComment with
         | None =>
             console_error [T "❌ Comment #"; Num id; T " not found on GitHub"];;
             process_exit 1
         | Some _ =>
             postCommentReply id replyBody DEFAULT_PR;;
             console_log [T "✅ Reply posted to comment #"; Num id];;
             console_log [T "🔄 Refreshing comments..."];;
             fetchComments DEFAULT_PR;;
             currentReplyCount ← query (getReplyCount id);
             exec_ (λ s, (update_where_id (set_snooze currentReplyCount) id s).1);;
             console_log [T "😴 Snoozed - waiting for reply"]
         end
     end)
    (λ error,
       console_error [T "❌ Failed to reply:"; E error];;
       process_exit 1).

(** The block [if (replyMessage) { ... }] of [resolveComment]. *)
Definition post_reply_step (id : Z) (replyMessage : option string) : M unit :=
  match replyMessage with
  | Some msg =>
      when (truthy_str replyMessage)
        (console_log [T "💬 Posting reply to comment #"; Num id; T "..."];;
         try_catch
           (replyToComment id msg;;
            console_log [T "✅ Reply posted"])
           (λ error, console_error [T "❌ Failed to post reply:"; E error]))
  | None => mret tt
  end.

Definition resolveComment (id : Z) (commit replyMessage : option string)
    : M unit :=
  comment ← query (getComment id);
  match comment with
  | None =>
      console_error [T "❌ Comment #"; Num id; T " not found"];;
      process_exit 1
  | Some comment =>
      match thread_id comment with
      | Some comment_thread_id =>
          if truthy_str (thread_id comment) then
            post_reply_step id replyMessage;;
            console_log [T "🔄 Resolving thread on GitHub..."];;
            resolved ← resolveThreadOnGitHub comment_thread_id;
            match resolved with
            | JsStale =>
                exec_ (clearStaleThreadId id);;
                console_warn [T "⚠️ Thread ID was stale (comment may have been deleted from GitHub)"];;
                console_warn [T "   The comment remains in your local database but can't be resolved on GitHub."];;
                console_warn [T "   Consider manually marking this as complete if the issue is resolved."];;
                process_exit 1
            | JsFalse =>
                console_error [T "❌ Failed to resolve thread on GitHub"];;
                process_exit 1
            | JsTrue =>
                let resolvedCommit :=
                  match commit with
                  | Some c => if truthy_str commit then c else "HEAD"
                  | None => "HEAD"
                  end in
                exec_ (updateCommentField id
                         (F_resolved_commit (Some resolvedCommit)));;
                console_log [T "🔄 Re-syncing with GitHub..."];;
                fetchComments DEFAULT_PR;;
                console_log [T "✅ Comment #"; Num id; T " resolved (commit: ";
                             T resolvedCommit; T ")"]
            end
          else
            console_warn [T "⚠️ No thread ID for comment #"; Num id;
                          T " - cannot resolve on GitHub"];;
            console_warn [T "   Try running: bun "; T SCRIPT_NAME; T " fetch"];;
            process_exit 1
      | None =>
          console_warn [T "⚠️ No thread ID for comment #"; Num id;
                        T " - cannot resolve on GitHub"];;
          console_warn [T "   Try running: bun "; T SCRIPT_NAME; T " fetch"];;
          process_exit 1
      end
  end.

Definition unresolveComment (id : Z) : M unit :=
  comment ← query (getComment id);
  match comment with
  | None =>
      console_error [T "❌ Comment #"; Num id; T " not found"];;
      process_exit 1
  | Some comment =>
      match thread_id comment with
      | Some comment_thread_id =>
          if truthy_str (thread_id comment) then
            console_log [T "🔄 Unresolving thread on GitHub..."];;
            unresolved ← unresolveThreadOnGitHub comment_thread_id;
            match unresolved with
            | JsStale =>
                exec_ (clearStaleThreadId id);;
                console_warn [T "⚠️ Thread ID was stale (comment may have been deleted from GitHub)"];;
                console_warn [T "   The comment remains in your local database but can't be unresolved on GitHub."];;
                process_exit 1
            | JsFalse =>
                console_error [T "❌ Failed to unresolve thread on GitHub"];;
                process_exit 1
            | JsTrue =>
                exec_ (updateCommentField id (F_resolved_commit None));;
                console_log [T "🔄 Re-syncing with GitHub..."];;
                fetchComments DEFAULT_PR;;
                console_log [T "✅ Comment #"; Num id; T " marked as unresolved"]
            end
          else
            console_warn [T "⚠️ No thread ID for comment #"; Num id;
                          T " - cannot unresolve on GitHub"];;
            console_warn [T "   Try running: bun "; T SCRIPT_NAME; T " fetch"];;
            process_exit 1
      | None =>
          console_warn [T "⚠️ No thread ID for comment #"; Num id;
                        T " - cannot unresolve on GitHub"];;
          console_warn [T "   Try running: bun "; T SCRIPT_NAME; T " fetch"];;
          process_exit 1
      end
  end.

Definition snoozeComment (id : Z) : M unit :=
  currentReplyCount ← query (getReplyCount id);
  changes ← exec (update_where_id (set_snooze currentReplyCount) id);
  if changes =? 0 then
    console_error [T "❌ Comment #"; Num id; T " not found"];;
    process_exit 1
  else
    console_log [T "😴 Snoozed comment #"; Num id; T " (waiting for reply)"].

Definition unsnoozeComment (id : Z) : M unit :=
  changes ← exec (update_where_id clear_snooze id);
  if changes =? 0 then
    console_error [T "❌ Comment #"; Num id; T " not found"];;
    process_exit 1
  else
    console_log [T "✅ Unsnoozed comment #"; Num id].

Definition unsnoozeAll : M unit :=
  changes ← exec unsnooze_all_rows;
  console_log [T "✅ Unsnoozed "; Num changes; T " comments"].

(** ** Outdated comment management *)

Definition isFileDeleted (file : string) : M bool :=
  r ← outside None (λ t, file_exists w t file);
  mret (match r with Some exists_ => negb exists_ | None => true end).

(** A [Date] is its time value in milliseconds. *)
Definition getFileModifiedTime (file : string) : M (option Z) :=
  r ← outside None (λ t, file_exists w t file);
  match r with
  | Some true =>
      m ← outside None (λ t, file_lastModified w t file);
      mret (Some m)
  | _ => mret None
  end.

(** The comparison of the two dates in [verifyOutdated] and the line it
    prints.  A [Date] compares by its time value; an invalid [first_seen]
    compares false.  [Math.floor(x / 1000 / 60)] is the quotient by 60000. *)
Definition modified_after_lines (fileModTime commentTime : option Z)
    : list (list Frag) :=
  match fileModTime with
  | None => []
  | Some m =>
      match commentTime with
      | Some c =>
          if bool_decide (m > c) then
            let timeDiff := (m - c) / (1000 * 60) in
            [[T "   Modified after comment: ⚠️  Yes (";
              Num (if bool_decide (timeDiff < 60) then timeDiff
                 else timeDiff / 60);
              T (if bool_decide (timeDiff < 60) then "m" else "h");
              T " later)"]]
          else [[T "   Modified after comment: ✅ No"]]
      | None => [[T "   Modified after comment: ✅ No"]]
      end
  end.

Definition verifyOutdated (id : Z) : M unit :=
  comment ← query (getComment id);
  match comment with
  | None =>
      console_error [T "❌ Comment #"; Num id; T " not found"];;
      process_exit 1
  | Some comment =>
      when (negb (outdated comment))
        (console_log [T "⚠️  Comment #"; Num id; T " is not marked as outdated"]);;
      if github_resolved comment then
        console_log [T "✅ Comment #"; Num id; T " is already resolved"]
      else
        shown ← query (λ s, showComment_lines s id);
        for_each shown console_log;;
        console_log [T "🔍 Verification Info:
"];;
        deleted ← isFileDeleted (path comment);
        let fileExists := negb deleted in
        console_log [T "   File exists: ";
                     T (if fileExists then "✅ Yes" else "❌ No (deleted)")];;
        if negb fileExists then
          console_log [T "
   💡 File was deleted. Find the deletion commit with:"];;
          console_log [T "      git log --all --oneline -- "; T (path comment);
                       T " | head -1"]
        else
          fileModTime ← getFileModifiedTime (path comment);
          let commentTime := date_parse w (first_seen comment) in
          for_each (modified_after_lines fileModTime commentTime) console_log;;
          console_log [T "
   📜 Recent commits for "; T (path comment); T ":"];;
          history ← outside (Some (GitLog (path comment)))
                            (λ t, git_log w t (path comment));
          match history with
          | Some lines =>
              for_each lines (λ l, console_log [T "      "; T l]);;
              match lines with
              | first :: _ =>
                  let suggestedCommit :=
                    before_space first in
                  console_log [T "
   💡 Suggested commit: "; T suggestedCommit];;
                  console_log [T "
   To resolve:"];;
                  console_log [T "      bun discuss.ts resolve "; Num id; T " ";
                               T suggestedCommit]
              | [] => mret tt
              end
          | None => console_log [T "      (Unable to fetch git history)"]
          end;;
          console_log []
  end.

End Commands.

(** ** CLI handler

    The commands of [main] that write to the database or call the
    provider, after the parsing of their arguments.  The other commands
    only read the database; [resolve-file] and [resolve-deleted] run
    [resolveComment] over the ids they select, as [resolve] does over the
    ids it is given. *)
Inductive Command :=
| Cmd_fetch (prNumber : string)
| Cmd_note (id : Z) (text : string)
| Cmd_reply (id : Z) (text : string)
| Cmd_snooze (id : Z)
| Cmd_unsnooze (id : Z)
| Cmd_unsnooze_all
| Cmd_resolve (ids : list Z) (commitHash replyMessage : option string)
| Cmd_unresolve (id : Z)
| Cmd_verify_outdated (id : Z).

Definition main (w : World) (showComment_lines : Store → Z → list (list Frag))
    (extractSuggestion : string → string) (truncate : string → nat → string)
    (command : Command) : M unit :=
  let fetch := fetchComments w extractSuggestion truncate in
  match command with
  | Cmd_fetch prNumber => fetch prNumber
  | Cmd_note id text => addNote w id text
  | Cmd_reply id text => replyToComment w extractSuggestion truncate id text
  | Cmd_snooze id => snoozeComment id
  | Cmd_unsnooze id => unsnoozeComment id
  | Cmd_unsnooze_all => unsnoozeAll
  | Cmd_resolve ids commitHash replyMessage =>
      for_each ids
        (λ id, resolveComment w extractSuggestion truncate id commitHash
                              replyMessage;;
               when (bool_decide (1 < length ids)%nat) (console_log []))
  | Cmd_unresolve id => unresolveComment w extractSuggestion truncate id
  | Cmd_verify_outdated id => verifyOutdated w showComment_lines id
  end.

(** ** Properties named by the specification *)

(** A comment that is not snoozed records no reply count. *)
Definition snooze_inv (s : Store) : Prop :=
  ∀ id c, comments s !! id = Some c →
          waiting_reply c = false → snoozed_reply_count c = Some 0.

(** The JSON body the provider sent for a mutation, whether [gh] exited
    with success or not. *)
Definition answer_body (a : ShellReply GraphQLResult) : option GraphQLResult :=
  match a with
  | Json r => Some r
  | Throws (ShellError (Some (Some r))) => Some r
  | Throws _ => None
  end.

(** The provider reports the thread as not found. *)
Definition reports_NOT_FOUND (a : ShellReply GraphQLResult) : Prop :=
  ∃ r es e, answer_body a = Some r ∧ errors r = Some es ∧ e ∈ es ∧
            e_type e = Some "NOT_FOUND".

(** The provider answers with the thread in the state asked for. *)
Definition confirms (expected : bool) (a : ShellReply GraphQLResult) : Prop :=
  ∃ r t, a = Json r ∧
         (data_resolveReviewThread r = Some t ∨
          data_resolveReviewThread r = None ∧
          data_unresolveReviewThread r = Some t) ∧
         tp_isResolved t = expected.

(** The threads a batch of pages reports as resolved, each counted once. *)
Definition resolved_threads (pages : list ThreadsPage) : gset string :=
  list_to_set
    (th_id <$> filter (λ t, th_isResolved t = true)
                      (pages ≫= λ p, COALESCE (nodes p) [])).

(** A run of upserts, each with its comment, thread info and time. *)
Definition upserts (l : list (GhComment * option ThreadInfo * string))
    (s : Store) : Store :=
  foldl (λ s u, (upsertComment u.1.1 u.1.2 u.2 s).1) s l.

Fixpoint no_newline (s : string) : bool :=
  match s with
  | EmptyString => true
  | String c s' => negb (Ascii.eqb c newline) && no_newline s'
  end.

(** The replies to the comment [id]: the rows of [replies] whose
    [in_reply_to_id] is [id]. *)
Definition replies_to (id : Z) (s : Store) : gmap Z Reply :=
  filter (λ kr, r_in_reply_to_id kr.2 = id) (replies s).

(** Whether the loop of [processAutoUnsnooze] clears the row [id]: some
    entry of the list read before the loop names it, with a count that the
    replies now exceed. *)
Definition cleared_by (l : list (Z * option Z)) (s : Store) (id : Z) : bool :=
  existsb (λ p, bool_decide (p.1 = id) &&
                bool_decide (getReplyCount p.1 s > COALESCE p.2 0)) l.

(** A property of the store that every statement of the script keeps. *)
Definition stable (P : Store → Prop) : Prop :=
  (∀ c info now s, P s → P (upsertComment c info now s).1) ∧
  (∀ r s s', upsertReply r s = Some s' → P s → P s') ∧
  (∀ id s, P s → P (update_where_id clear_snooze id s).1) ∧
  (∀ n id s, P s → P (update_where_id (set_snooze n) id s).1) ∧
  (∀ fv id s, P s → P (updateCommentField id fv s)) ∧
  (∀ s, P s → P (unsnooze_all_rows s).1).

(** A command keeps [P], however it ends. *)
Definition preserves (P : Store → Prop) {A} (m : M A) : Prop :=
  ∀ st, P (db st) → P (db (m st).2).

(** The state after the lines [ls] are printed. *)
Definition print_lines (ls : list (list Frag)) (st : State) : State :=
  mkState (db st) (tick st) (out st ++ (Log <$> ls)) (deferredLogs st).

(** The invariant on one row. *)
Definition row_inv (c : Comment) : Prop :=
  waiting_reply c = false → snoozed_reply_count c = Some 0.

(** ** Sample data

    A bot comment, one resolved thread holding it and its reply, and a
    provider that answers every mutation with a not-found error. *)

Definition initial_state : State := mkState empty_store 0 [] [].

Definition sample_comment (id : Z) (parent : option Z) : GhComment :=
  {| gh_id := id;
     gh_path := "src/telemetry.zig";
     gh_line := Some 42;
     gh_body := "_⚠️ Potential issue_ | _🔴 Critical_
**Check the span lifetime.**";
     gh_created_at := "2025-10-18T09:00:00Z";
     gh_updated_at := "2025-10-18T09:00:00Z";
     gh_user_login := "coderabbitai[bot]";
     gh_in_reply_to_id := parent |}.

Definition one_thread_page : ThreadsPage :=
  {| nodes :=
       Some [ {| th_id := "T1"; th_isResolved := true; th_isOutdated := false;
                 th_comments := [ {| databaseId := 1; tc_outdated := false |};
                                  {| databaseId := 2; tc_outdated := false |} ] |} ];
     pageInfo := Some {| hasNextPage := false; endCursor := None |} |}.

Definition NOT_FOUND_answer : ShellReply GraphQLResult :=
  Throws (ShellError (Some (Some
    {| data_resolveReviewThread := None;
       data_unresolveReviewThread := None;
       errors := Some [ {| e_type := Some "NOT_FOUND" |} ] |}))).

Definition one_thread_world : World :=
  {| gh_pr_comments := λ _ _,
       Json (RestArray [sample_comment 1 None; sample_comment 2 (Some 1)]);
     gh_review_threads := λ _ _, [Json one_thread_page];
     gh_graphql_mutation := λ _ _ _, NOT_FOUND_answer;
     gh_post_reply := λ _ _ _ _, false;
     clock_now := λ _, "2025-10-19T00:00:00.000Z";
     date_parse := λ _, Some 1000;
     file_exists := λ _ _, Some true;
     file_lastModified := λ _ _, 4000000;
     git_log := λ _ _, None |}.

Definition no_suggestion (body : string) : string := "".
Definition no_truncate (text : string) (maxLength : nat) : string := text.

Definition sample_row : Comment :=
  {| cid := 1;
     path := "src/telemetry.zig";
     line := Some 42;
     body := "old body";
     priority := "unknown";
     severity := "critical";
     outdated := false;
     created_at := "2025-10-18T09:00:00Z";
     updated_at := "2025-10-18T09:00:00Z";
     user := "coderabbitai[bot]";
     first_seen := "2025-10-18T09:30:00.000Z";
     thread_id := Some "T1";
     github_resolved := false;
     resolved_commit := Some "e749aa5948";
     waiting_reply := true;
     snoozed_reply_count := Some 1;
     notes := Some "[2025-10-18T10:00:00.000Z] asked the bot" |}.

Definition sample_reply (id : Z) : Reply :=
  {| r_id := id; r_in_reply_to_id := 1; r_body := "done";
     r_user := "coderabbitai[bot]";
     r_created_at := "2025-10-18T11:00:00Z";
     r_updated_at := "2025-10-18T11:00:00Z" |}.

(** Comment 1, snoozed when it had one reply, and the two replies it has
    now. *)
Definition sample_store : Store :=
  mkStore {[ 1 := sample_row ]}
          (<[ 3 := sample_reply 3 ]> {[ 2 := sample_reply 2 ]}).

Definition sample_state : State := mkState sample_store 0 [] [].

(** The same comment before its thread id is known. *)
Definition unthreaded_state : State :=
  mkState (updateCommentField 1 (F_thread_id None) sample_store) 0 [] [].

(** ** Properties of the commands beyond the specification *)

(** Whether the walk over the served pages fails: a request throws, or the
    provider stops answering while more pages are announced. *)
Fixpoint walk_throws (pages : list (ShellReply ThreadsPage)) : bool :=
  match pages with
  | [] => true
  | Throws _ :: _ => true
  | Json p :: rest =>
      if COALESCE (hasNextPage <$> pageInfo p) false then walk_throws rest
      else false
  end.

(** The pages that the walk reads: up to the first one that announces no
    next page. *)
Fixpoint walked (pages : list (ShellReply ThreadsPage)) : list ThreadsPage :=
  match pages with
  | Json p :: rest =>
      p :: (if COALESCE (hasNextPage <$> pageInfo p) false then walked rest
            else [])
  | _ => []
  end.

(** The threads on the pages read. *)
Definition threads_read (pages : list (ShellReply ThreadsPage)) : list GhThread :=
  walked pages ≫= λ p, COALESCE (nodes p) [].

(** [info] is what the thread and one of its comments say. *)
Definition describes (thread : GhThread) (comment : GhThreadComment)
    (info : ThreadInfo) : Prop :=
  threadId info = th_id thread ∧ isResolved info = th_isResolved thread ∧
  isOutdated info = tc_outdated comment.

(** The stored row of [id] carries what the thread metadata says of it. *)
Definition threaded (threadInfo : gmap Z ThreadInfo) (id : Z) (s : Store)
    : Prop :=
  ∃ row, comments s !! id = Some row ∧
         thread_id row = threadId <$> threadInfo !! id ∧
         github_resolved row = from_option isResolved false (threadInfo !! id) ∧
         outdated row = from_option isOutdated false (threadInfo !! id).

(** A command that never calls [process.exit]. *)
Definition never_exits {A} (m : M A) : Prop := ∀ st c, (m st).1 ≠ Exit c.

(** A property of the store that the statements of a sync keep: the two
    upserts and the reset of one snoozed row. *)
Definition sync_stable (P : Store → Prop) : Prop :=
  (∀ c info now s, P s → P (upsertComment c info now s).1) ∧
  (∀ r s s', upsertReply r s = Some s' → P s → P s') ∧
  (∀ id s, P s → P (update_where_id clear_snooze id s).1).

(** The values of the two marker tables, and the default. *)
Definition known_priority (p : string) : Prop :=
  p ∈ ["issue"; "refactor"; "nitpick"; "unknown"].

Definition known_severity (v : string) : Prop :=
  v ∈ ["critical"; "major"; "minor"; "trivial"; "unknown"].

Definition classified (s : Store) : Prop :=
  ∀ id c, comments s !! id = Some c →
          known_priority (priority c) ∧ known_severity (severity c).

(** The comment [id] is stored and was first seen at [t]. *)
Definition seen_at (id : Z) (t : string) (s : Store) : Prop :=
  ∃ c, comments s !! id = Some c ∧ first_seen c = t.

(** The comment [id] is stored with the local annotations of [c]; it may
    have been snoozed since, but not woken by hand. *)
Definition annotated (id : Z) (c : Comment) (s : Store) : Prop :=
  ∃ c', comments s !! id = Some c' ∧
        notes c' = notes c ∧ resolved_commit c' = resolved_commit c ∧
        first_seen c' = first_seen c ∧
        (waiting_reply c = false → waiting_reply c' = false).

(** What a command leaves when it refuses an id: one error line, then
    [process.exit(1)]. *)
Definition refused (id : Z) (st : State) : Result unit * State :=
  (Exit 1,
   mkState (db st) (tick st)
     (out st ++ [Error [T "❌ Comment #"; Num id; T " not found"]])
     (deferredLogs st)).

(** A provider that cannot be reached, and one that confirms every
    mutation. *)
Definition offline_world : World :=
  {| gh_pr_comments := λ _ _, Throws (ShellError None);
     gh_review_threads := λ _ _, [];
     gh_graphql_mutation := λ _ _ _, Throws (ShellError None);
     gh_post_reply := λ _ _ _ _, false;
     clock_now := λ _, "2025-10-19T00:00:00.000Z";
     date_parse := λ _, None;
     file_exists := λ _ _, None;
     file_lastModified := λ _ _, 0;
     git_log := λ _ _, None |}.

Definition confirming_world : World :=
  {| gh_pr_comments := λ _ _,
       Json (RestArray [sample_comment 1 None; sample_comment 2 (Some 1)]);
     gh_review_threads := λ _ _, [Json one_thread_page];
     gh_graphql_mutation := λ _ _ _,
       Json {| data_resolveReviewThread := Some {| tp_isResolved := true |};
               data_unresolveReviewThread := None;
               errors := None |};
     gh_post_reply := λ _ _ _ _, true;
     clock_now := λ _, "2025-10-19T00:00:00.000Z";
     date_parse := λ _, Some 1000;
     file_exists := λ _ _, Some true;
     file_lastModified := λ _ _, 4000000;
     git_log := λ _ _, None |}.

(** * Properties *)

(** ** Parsing *)

(** The scan returns the value of the first marker of the table that the
    line contains. *)
Lemma scan_markers_first table : ∀ pre marker val post firstLine found,
  table = (pre ++ (marker, val) :: post)%list →
  includes firstLine marker = true →
  (∀ m v, (m, v) ∈ pre → includes firstLine m = false) →
  scan_markers table firstLine found = val.
Proof.
  intros pre. revert table.
  induction pre as [|[m0 v0] pre IH];
    intros table marker val post fl found -> Hin Hpre; simpl.
  - by rewrite Hin.
  - rewrite (Hpre m0 v0) by apply list_elem_of_here.
    eapply IH; [done|done|]. intros m v Hm. apply (Hpre m v).
    by apply list_elem_of_further.
Qed.

(** When the line contains one marker of the table and no other, the scan
    returns the value of that marker. *)
Lemma scan_markers_only table : ∀ marker val firstLine found,
  NoDup table.*1 →
  (marker, val) ∈ table →
  includes firstLine marker = true →
  (∀ m v, (m, v) ∈ table → m ≠ marker → includes firstLine m = false) →
  scan_markers table firstLine found = val.
Proof.
  induction table as [|[m0 v0] table IH];
    intros marker val fl found Hnd Hin Hinc Hothers; cbn [scan_markers].
  - by apply elem_of_nil in Hin.
  - rewrite fmap_cons in Hnd. apply NoDup_cons in Hnd as [Hfresh Hnd].
    apply elem_of_cons in Hin as [[= <- <-]|Hin].
    + by rewrite Hinc.
    + assert (Hne : m0 ≠ marker).
      { intros ->. apply Hfresh. apply list_elem_of_fmap.
        by exists (marker, val). }
      rewrite (Hothers m0 v0 (list_elem_of_here _ _) Hne).
      apply (IH marker val); [done..|].
      intros m v Hm. apply (Hothers m v). by apply list_elem_of_further.
Qed.

Lemma NoDup_PRIORITY_MARKERS : NoDup PRIORITY_MARKERS.*1.
Proof. apply (bool_decide_unpack _). by vm_compute. Qed.

Lemma NoDup_SEVERITY_MARKERS : NoDup SEVERITY_MARKERS.*1.
Proof. apply (bool_decide_unpack _). by vm_compute. Qed.

Lemma scan_markers_none table : ∀ firstLine found,
  (∀ m v, (m, v) ∈ table → includes firstLine m = false) →
  scan_markers table firstLine found = found.
Proof.
  induction table as [|[m0 v0] table IH]; intros fl found Hall; simpl; [done|].
  rewrite (Hall m0 v0) by apply list_elem_of_here.
  apply IH. intros m v Hm. apply (Hall m v). by apply list_elem_of_further.
Qed.

Lemma first_line_append l rest :
  no_newline l = true →
  first_line (String.append l (String newline rest)) = l.
Proof.
  unfold first_line. intros Hl.
  assert (H : head (split_lines (String.append l (String newline rest)))
              = Some l).
  { induction l as [|c l IH]; simpl in *.
    - reflexivity.
    - apply andb_prop in Hl as [Hc Hl]. apply negb_true_iff in Hc. rewrite Hc.
      specialize (IH Hl). destruct (split_lines _); simpl in *; congruence. }
  rewrite H. by destruct l.
Qed.

Lemma first_line_self l : no_newline l = true → first_line l = l.
Proof.
  unfold first_line. intros Hl.
  assert (H : head (split_lines l) = Some l).
  { induction l as [|c l IH]; simpl in *; [done|].
    apply andb_prop in Hl as [Hc Hl]. apply negb_true_iff in Hc. rewrite Hc.
    specialize (IH Hl). destruct (split_lines _); simpl in *; congruence. }
  rewrite H. by destruct l.
Qed.

(** C6.  Priority and severity are parsed from the first line of the body
    only.  A first line that contains one marker of [PRIORITY_MARKERS]
    gives the priority mapped to it, and likewise the severity with
    [SEVERITY_MARKERS]; should the line contain several markers of a
    table, the one that comes first in the table decides; a first line
    that contains no marker gives "unknown" for both; and what follows the
    first newline plays no part. *)
Theorem parse_first_marker_wins (body : string) :
  let firstLine := first_line body in
  (∀ marker val,
     (marker, val) ∈ PRIORITY_MARKERS →
     includes firstLine marker = true →
     (∀ m v, (m, v) ∈ PRIORITY_MARKERS → m ≠ marker →
             includes firstLine m = false) →
     (parseComment body).1 = val) ∧
  (∀ marker val,
     (marker, val) ∈ SEVERITY_MARKERS →
     includes firstLine marker = true →
     (∀ m v, (m, v) ∈ SEVERITY_MARKERS → m ≠ marker →
             includes firstLine m = false) →
     (parseComment body).2 = val) ∧
  (∀ pre marker val post,
     PRIORITY_MARKERS = (pre ++ (marker, val) :: post)%list →
     includes firstLine marker = true →
     (∀ m v, (m, v) ∈ pre → includes firstLine m = false) →
     (parseComment body).1 = val) ∧
  (∀ pre marker val post,
     SEVERITY_MARKERS = (pre ++ (marker, val) :: post)%list →
     includes firstLine marker = true →
     (∀ m v, (m, v) ∈ pre → includes firstLine m = false) →
     (parseComment body).2 = val) ∧
  ((∀ m v, (m, v) ∈ (PRIORITY_MARKERS ++ SEVERITY_MARKERS)%list →
           includes firstLine m = false) →
   parseComment body = ("unknown", "unknown")) ∧
  (∀ l rest, no_newline l = true →
             body = String.append l (String newline rest) →
             parseComment body = parseComment l).
Proof.
  intros firstLine. unfold parseComment. fold firstLine. cbn [fst snd].
  split; [|split; [|split; [|split; [|split]]]].
  - intros marker val Hin Hinc Hothers.
    by apply (scan_markers_only _ marker val _ _ NoDup_PRIORITY_MARKERS).
  - intros marker val Hin Hinc Hothers.
    by apply (scan_markers_only _ marker val _ _ NoDup_SEVERITY_MARKERS).
  - intros. by eapply scan_markers_first.
  - intros. by eapply scan_markers_first.
  - intros Hno.
    f_equal; apply scan_markers_none; intros m v Hm; apply (Hno m v);
      apply elem_of_app; auto.
  - intros l rest Hl ->. unfold firstLine.
    by rewrite first_line_append, first_line_self.
Qed.

(** ** Upsert *)

Lemma upsert_lookup_same comment threadInfo now s :
  comments (upsertComment comment threadInfo now s).1 !! gh_id comment
  = Some (upsert_row comment threadInfo now (comments s !! gh_id comment)).
Proof. unfold upsertComment. simpl. apply lookup_insert_eq. Qed.

Lemma upsert_lookup_other comment threadInfo now s id :
  id ≠ gh_id comment →
  comments (upsertComment comment threadInfo now s).1 !! id = comments s !! id.
Proof. intros Hne. unfold upsertComment. simpl. by apply lookup_insert_ne. Qed.

Lemma upsert_row_first_seen comment threadInfo now existing :
  first_seen (upsert_row comment threadInfo now existing)
  = COALESCE (first_seen <$> existing) now.
Proof. unfold upsert_row. by destruct (parseComment _). Qed.

(** C1.  Upserting a comment that is already stored, snoozed with a
    recorded reply count [n], leaves [notes], [resolved_commit],
    [waiting_reply] and [snoozed_reply_count] as they were, and takes
    [body], [updated_at], [outdated], [thread_id] and [github_resolved]
    from the fresh fetch. *)
Theorem upsert_preserves_local_annotations
    (s : Store) (comment : GhComment) (threadInfo : option ThreadInfo)
    (now : string) (old : Comment) (n : Z) :
  comments s !! gh_id comment = Some old →
  waiting_reply old = true →
  snoozed_reply_count old = Some n →
  ∃ new,
    comments (upsertComment comment threadInfo now s).1 !! gh_id comment
      = Some new ∧
    notes new = notes old ∧
    resolved_commit new = resolved_commit old ∧
    waiting_reply new = true ∧
    snoozed_reply_count new = Some n ∧
    body new = gh_body comment ∧
    updated_at new = gh_updated_at comment ∧
    outdated new = from_option isOutdated false threadInfo ∧
    thread_id new = threadId <$> threadInfo ∧
    github_resolved new = from_option isResolved false threadInfo.
Proof.
  intros Hold Hw Hn. eexists. split; [apply upsert_lookup_same|].
  rewrite Hold. unfold upsert_row. destruct (parseComment _). simpl.
  rewrite Hw, Hn. done.
Qed.

Lemma upserts_first_seen l : ∀ s id c,
  comments s !! id = Some c →
  first_seen <$> comments (upserts l s) !! id = Some (first_seen c).
Proof.
  induction l as [|[[u i] t] l IH]; intros s id c Hc; simpl.
  - by rewrite Hc.
  - destruct (decide (id = gh_id u)) as [->|Hne].
    + erewrite IH; [|apply upsert_lookup_same].
      rewrite upsert_row_first_seen, Hc. done.
    + eapply IH. simpl. rewrite lookup_insert_ne by congruence. exact Hc.
Qed.

(** C2.  The first upsert of an id stores the current time as
    [first_seen], and no run of later upserts, of this id or of others,
    changes it. *)
Theorem first_seen_is_set_once
    (s : Store) (comment : GhComment) (threadInfo : option ThreadInfo)
    (now : string) (later : list (GhComment * option ThreadInfo * string)) :
  comments s !! gh_id comment = None →
  let s1 := (upsertComment comment threadInfo now s).1 in
  first_seen <$> comments s1 !! gh_id comment = Some now ∧
  first_seen <$> comments (upserts later s1) !! gh_id comment = Some now.
Proof.
  intros Hnone s1.
  assert (H1 : comments s1 !! gh_id comment
               = Some (upsert_row comment threadInfo now None)).
  { unfold s1. rewrite upsert_lookup_same. by rewrite Hnone. }
  split.
  - rewrite H1. change (Some (first_seen (upsert_row comment threadInfo now None)) = Some now).
    by rewrite upsert_row_first_seen.
  - erewrite upserts_first_seen; [|exact H1]. by rewrite upsert_row_first_seen.
Qed.

(** ** Auto-unsnooze *)

Lemma getReplyCount_replies id s s' :
  replies s' = replies s → getReplyCount id s' = getReplyCount id s.
Proof. unfold getReplyCount. by intros ->. Qed.

Lemma clear_snooze_idemp c : clear_snooze (clear_snooze c) = clear_snooze c.
Proof. done. Qed.

(** Whether the loop clears the row [id]: some entry of the list read
    before the loop names it with a count the replies now exceed. *)
Lemma unsnooze_loop l : ∀ s n,
  let r := foldl unsnooze_step (s, n) l in
  replies r.1 = replies s ∧
  ∀ id, comments r.1 !! id =
        if cleared_by l s id then clear_snooze <$> comments s !! id
        else comments s !! id.
Proof.
  induction l as [|[k cnt] l IH]; intros s n; simpl; [done|].
  unfold unsnooze_step at 2. cbn [fst snd].
  case_bool_decide as Hgt.
  - specialize (IH (update_where_id clear_snooze k s).1 (n + 1)).
    simpl in IH. destruct IH as [IHr IHc]. split; [done|].
    intros id. rewrite IHc.
    assert (Hcl : cleared_by l {| comments := alter clear_snooze k (comments s);
                                 replies := replies s |} id = cleared_by l s id).
    { reflexivity. }
    rewrite Hcl. rewrite lookup_alter.
    destruct (decide (k = id)) as [->|Hne].
    + rewrite bool_decide_true by done. simpl.
      destruct (cleared_by l s id); [|done].
      destruct (comments s !! id); done.
    + rewrite (bool_decide_false (k = id)) by done. simpl. done.
  - specialize (IH s n). simpl in IH. destruct IH as [IHr IHc]. split; [done|].
    intros id. rewrite IHc. rewrite andb_false_r. done.
Qed.

Lemma unsnooze_loop_noop l : ∀ s n,
  (∀ p, p ∈ l → ¬ getReplyCount p.1 s > COALESCE p.2 0) →
  foldl unsnooze_step (s, n) l = (s, n).
Proof.
  induction l as [|p l IH]; intros s n Hall; cbn [foldl]; [done|].
  assert (Hstep : unsnooze_step (s, n) p = (s, n)).
  { unfold unsnooze_step. rewrite bool_decide_false; [done|].
    apply Hall. apply list_elem_of_here. }
  rewrite Hstep. apply IH. intros q Hq. apply Hall. by apply list_elem_of_further.
Qed.

Lemma elem_of_getSnoozedComments s k cnt :
  (k, cnt) ∈ getSnoozedComments s ↔
  ∃ c, comments s !! k = Some c ∧ waiting_reply c = true ∧
       cnt = snoozed_reply_count c.
Proof.
  unfold getSnoozedComments. rewrite list_elem_of_fmap. split.
  - intros [[k' c] [Heq Hin]]. simpl in Heq. injection Heq as -> ->.
    apply list_elem_of_filter in Hin as [Hw Hin]. simpl in Hw.
    apply elem_of_map_to_list in Hin. eauto.
  - intros (c & Hc & Hw & ->). exists (k, c). split; [done|].
    apply list_elem_of_filter. split; [done|]. by apply elem_of_map_to_list.
Qed.

Lemma cleared_by_true l s id :
  cleared_by l s id = true ↔
  ∃ cnt, (id, cnt) ∈ l ∧ getReplyCount id s > COALESCE cnt 0.
Proof.
  unfold cleared_by. rewrite existsb_exists. split.
  - intros ([k cnt] & Hin & Hp). apply andb_prop in Hp as [Hk Hgt].
    apply bool_decide_eq_true in Hk. apply bool_decide_eq_true in Hgt.
    simpl in *. subst k. exists cnt. split; [by apply list_elem_of_In|done].
  - intros (cnt & Hin & Hgt). exists (id, cnt). split; [by apply list_elem_of_In|].
    simpl. rewrite !bool_decide_true; done.
Qed.

Lemma cleared_by_snoozed s id c :
  comments s !! id = Some c → waiting_reply c = true →
  cleared_by (getSnoozedComments s) s id
  = bool_decide (getReplyCount id s > COALESCE (snoozed_reply_count c) 0).
Proof.
  intros Hc Hw. apply eq_true_iff_eq. rewrite cleared_by_true, bool_decide_eq_true.
  split.
  - intros (cnt & Hin & Hgt). apply elem_of_getSnoozedComments in Hin
      as (c' & Hc' & _ & ->). congruence.
  - intros Hgt. eexists. split; [|exact Hgt].
    apply elem_of_getSnoozedComments. eauto.
Qed.

Lemma cleared_by_awake s id c :
  comments s !! id = Some c → waiting_reply c = false →
  cleared_by (getSnoozedComments s) s id = false.
Proof.
  intros Hc Hw. apply not_true_is_false. rewrite cleared_by_true.
  intros (cnt & Hin & _). apply elem_of_getSnoozedComments in Hin
    as (c' & Hc' & Hw' & _). congruence.
Qed.

Lemma lookup_replies_to id s k r :
  replies_to id s !! k = Some r ↔
  replies s !! k = Some r ∧ r_in_reply_to_id r = id.
Proof. unfold replies_to. by rewrite map_lookup_filter_Some. Qed.

Lemma getReplyCount_replies_to id s :
  getReplyCount id s = Z.of_nat (size (replies_to id s)).
Proof.
  unfold getReplyCount, replies_to. f_equal.
  rewrite map_filter_alt, <- length_map_to_list. symmetry.
  apply Permutation_length, map_to_list_to_map.
  apply (sublist_NoDup _ (map_to_list (replies s)).*1);
    [apply NoDup_fst_map_to_list|apply fmap_sublist, sublist_filter].
Qed.

Lemma replies_to_other_reply id k reply s :
  r_in_reply_to_id reply ≠ id →
  (∀ old, replies s !! k = Some old → r_in_reply_to_id old ≠ id) →
  replies_to id (mkStore (comments s) (<[k := reply]> (replies s)))
  = replies_to id s.
Proof.
  intros Hreply Hold. apply map_eq. intros j. apply option_eq. intros r.
  rewrite !lookup_replies_to. cbn [replies]. rewrite lookup_insert.
  case_decide as Hj; [subst j|done].
  split.
  - intros [[= <-] ?]. done.
  - intros [Hr ?]. by destruct (Hold r Hr).
Qed.

Lemma cleared_by_replies_to l s1 s2 id :
  replies_to id s1 = replies_to id s2 →
  cleared_by l s1 id = cleared_by l s2 id.
Proof.
  intros Heq. unfold cleared_by. induction l as [|p l IH]; [done|].
  cbn [existsb]. rewrite IH. f_equal.
  case_bool_decide as Hp; [|done]. rewrite Hp. cbn [andb].
  by rewrite !getReplyCount_replies_to, Heq.
Qed.

(** C3.  The auto-unsnooze pass clears a snoozed comment, setting
    [waiting_reply] to false and [snoozed_reply_count] to 0, exactly when
    the number of its replies, the rows of [replies] that answer this
    comment, exceeds the recorded count; with equal (or fewer) replies the
    row is left as it is, and a reply stored for another comment makes no
    difference to it; rows that are not snoozed and the replies are
    untouched; and a second pass changes nothing and counts 0. *)
Theorem auto_unsnooze_clears_exactly_on_new_replies (s : Store) :
  let s' := (processAutoUnsnooze s).1 in
  let reply_count id := Z.of_nat (size (replies_to id s)) in
  (∀ id k r, replies_to id s !! k = Some r ↔
             replies s !! k = Some r ∧ r_in_reply_to_id r = id) ∧
  (∀ id c, comments s !! id = Some c → waiting_reply c = true →
     (reply_count id > COALESCE (snoozed_reply_count c) 0 →
      ∃ c', comments s' !! id = Some c' ∧ c' = clear_snooze c ∧
            waiting_reply c' = false ∧ snoozed_reply_count c' = Some 0) ∧
     (reply_count id ≤ COALESCE (snoozed_reply_count c) 0 →
      comments s' !! id = Some c)) ∧
  (∀ id k reply,
     r_in_reply_to_id reply ≠ id →
     (∀ old, replies s !! k = Some old → r_in_reply_to_id old ≠ id) →
     comments (processAutoUnsnooze
                 (mkStore (comments s) (<[k := reply]> (replies s)))).1 !! id
     = comments s' !! id) ∧
  (∀ id c, comments s !! id = Some c → waiting_reply c = false →
     comments s' !! id = Some c) ∧
  replies s' = replies s ∧
  processAutoUnsnooze s' = (s', 0).
Proof.
  intros s' reply_count. unfold s', reply_count, processAutoUnsnooze.
  destruct (unsnooze_loop (getSnoozedComments s) s 0) as [Hr Hc].
  cbn zeta in Hr, Hc.
  split; [intros id k r; apply lookup_replies_to|].
  split; [|split; [|split; [|split]]].
  - intros id c Hid Hw. rewrite <- getReplyCount_replies_to. split.
    + intros Hgt. exists (clear_snooze c). rewrite Hc.
      rewrite (cleared_by_snoozed _ _ _ Hid Hw), bool_decide_true by done.
      rewrite Hid. done.
    + intros Hle. rewrite Hc.
      rewrite (cleared_by_snoozed _ _ _ Hid Hw), bool_decide_false by lia.
      done.
  - intros id k reply Hreply Hold.
    set (s2 := mkStore (comments s) (<[k := reply]> (replies s))).
    destruct (unsnooze_loop (getSnoozedComments s2) s2 0) as [_ Hc2].
    cbn zeta in Hc2. rewrite Hc2, Hc.
    change (getSnoozedComments s2) with (getSnoozedComments s).
    change (comments s2) with (comments s).
    rewrite (cleared_by_replies_to _ s2 s id); [done|].
    by apply replies_to_other_reply.
  - intros id c Hid Hw. rewrite Hc, (cleared_by_awake _ _ _ Hid Hw). done.
  - done.
  - apply unsnooze_loop_noop. intros [k cnt] Hin. simpl.
    apply elem_of_getSnoozedComments in Hin as (c' & Hc' & Hw' & ->).
    rewrite Hc in Hc'. rewrite (getReplyCount_replies _ _ _ Hr).
    destruct (comments s !! k) as [c|] eqn:Hk.
    + destruct (waiting_reply c) eqn:Hw.
      * rewrite (cleared_by_snoozed _ _ _ Hk Hw) in Hc'.
        case_bool_decide as Hgt; simpl in Hc'.
        -- injection Hc' as <-. discriminate.
        -- injection Hc' as <-. done.
      * rewrite (cleared_by_awake _ _ _ Hk Hw) in Hc'. congruence.
    + destruct (cleared_by _ _ _); discriminate.
Qed.

(** ** What every command keeps *)

Section Preservation.
Variable P : Store → Prop.

Lemma preserves_ret {A} (a : A) : preserves P (mret a : M A).
Proof. intros st H. exact H. Qed.

Lemma preserves_bind {A B} (m : M A) (k : A → M B) :
  preserves P m → (∀ a, preserves P (k a)) → preserves P (m ≫= k).
Proof.
  intros Hm Hk st H. unfold mbind, M_bind. specialize (Hm st H).
  destruct (m st) as [[a|e|c] st']; simpl in *; [by apply Hk|done|done].
Qed.

Lemma preserves_throw {A} e : preserves P (throw e : M A).
Proof. intros st H. exact H. Qed.

Lemma preserves_exit {A} c : preserves P (process_exit c : M A).
Proof. intros st H. exact H. Qed.

Lemma preserves_emit e : preserves P (emit e).
Proof. intros st H. exact H. Qed.

Lemma preserves_deferLog x : preserves P (deferLog x).
Proof. intros st H. exact H. Qed.

Lemma preserves_outside {A} c (answer : nat → A) :
  preserves P (outside c answer).
Proof. intros st H. exact H. Qed.

Lemma preserves_query {A} (f : Store → A) : preserves P (query f).
Proof. intros st H. exact H. Qed.

Lemma preserves_exec {A} (f : Store → Store * A) :
  (∀ s, P s → P (f s).1) → preserves P (exec f).
Proof.
  intros Hf st H. unfold exec. specialize (Hf _ H).
  by destruct (f (db st)).
Qed.

Lemma preserves_try_catch {A} (m : M A) handler :
  preserves P m → (∀ e, preserves P (handler e)) →
  preserves P (try_catch m handler).
Proof.
  intros Hm Hh st H. unfold try_catch. specialize (Hm st H).
  destruct (m st) as [[a|e|c] st']; simpl in *; [done|by apply Hh|done].
Qed.

Lemma preserves_printAtTheEnd {A} (block : M A) :
  preserves P block → preserves P (printAtTheEnd block).
Proof.
  intros Hm st H. unfold printAtTheEnd. specialize (Hm st H).
  by destruct (block st) as [[a|e|c] st'].
Qed.

Lemma preserves_for_each {A} (l : list A) (f : A → M unit) :
  (∀ x, preserves P (f x)) → preserves P (for_each l f).
Proof.
  intros Hf. induction l as [|x l IH]; simpl.
  - apply preserves_ret.
  - apply preserves_bind; [apply Hf|intros _; apply IH].
Qed.

Lemma preserves_when b (m : M unit) : preserves P m → preserves P (when b m).
Proof. intros Hm. destruct b; [exact Hm|apply preserves_ret]. Qed.
End Preservation.

Ltac preserve_step :=
  first
    [ apply preserves_ret
    | apply preserves_throw
    | apply preserves_exit
    | apply preserves_emit
    | apply preserves_deferLog
    | apply preserves_outside
    | apply preserves_query
    | apply preserves_bind; [|intros ?]
    | apply preserves_try_catch; [|intros ?]
    | apply preserves_printAtTheEnd
    | apply preserves_for_each; intros ?
    | apply preserves_when
    | match goal with
      | |- preserves _ (match ?x with _ => _ end) => destruct x
      | |- preserves _ (if ?x then _ else _) => destruct x
      end ].

Ltac preserve_with known := repeat (cbv beta; first [known | preserve_step]).
Ltac preserve := preserve_with fail.

Section Commands_preserve.
Variable P : Store → Prop.
Hypothesis HP : stable P.
Variable w : World.
Variable extractSuggestion : string → string.
Variable truncate : string → nat → string.
Variable showComment_lines : Store → Z → list (list Frag).

Lemma stable_processAutoUnsnooze s : P s → P (processAutoUnsnooze s).1.
Proof.
  unfold processAutoUnsnooze. generalize (getSnoozedComments s) 0.
  intros l. revert s. induction l as [|p l IH]; intros s n Hs; [done|].
  cbn [foldl]. unfold unsnooze_step at 2. case_bool_decide.
  - apply IH. by apply HP.
  - by apply IH.
Qed.

Lemma stable_store_comments comments threadInfo now s :
  P s → P (store_comments comments threadInfo now s).1.
Proof.
  unfold store_comments. generalize 0 at 1. generalize 0.
  revert s. induction comments as [|c l IH]; intros s n u Hs; [done|].
  cbn [foldl].
  pose proof (proj1 HP c (threadInfo !! gh_id c) now s Hs) as Hc.
  destruct (upsertComment c (threadInfo !! gh_id c) now s) as [s' []];
    by apply IH.
Qed.

Lemma preserves_executeGraphQLMutation mutation threadId operationName :
  preserves P (executeGraphQLMutation w mutation threadId operationName).
Proof.
  unfold executeGraphQLMutation, shell, console_log, console_warn,
    console_error.
  preserve.
Qed.

Lemma preserves_walk_pages prNumber pages : ∀ pageCount threadInfo,
  preserves P (walk_pages prNumber pages pageCount threadInfo).
Proof.
  induction pages as [|[p|e] rest IH]; intros pageCount threadInfo; simpl;
    preserve_with ltac:(apply IH).
Qed.

Lemma preserves_printFetchSummary resolvedCount outdatedCount :
  preserves P (printFetchSummary extractSuggestion truncate resolvedCount
                                 outdatedCount).
Proof.
  unfold printFetchSummary, printCriticalPreview, when, console_log. preserve.
Qed.

Lemma preserves_store_reply reply : preserves P (store_reply reply).
Proof.
  intros st H. unfold store_reply, exec_or_throw.
  destruct (upsertReply reply (db st)) eqn:Hr; [|done].
  simpl. by eapply HP.
Qed.

Lemma preserves_fetchComments prNumber :
  preserves P (fetchComments w extractSuggestion truncate prNumber).
Proof.
  unfold fetchComments, fetchPRComments, fetchThreadMetadata, shell, when,
    console_log, console_error.
  preserve_with ltac:(first [ apply preserves_walk_pages
                            | apply preserves_store_reply
                            | apply preserves_printFetchSummary ]).
  all: apply preserves_exec; intros s Hs.
  - by apply stable_store_comments.
  - by apply stable_processAutoUnsnooze.
Qed.

Lemma preserves_replyToComment id replyBody :
  preserves P (replyToComment w extractSuggestion truncate id replyBody).
Proof.
  unfold replyToComment, postCommentReply, shell, console_log, console_error.
  preserve_with ltac:(apply preserves_fetchComments).
  apply preserves_exec; intros ? ?; by apply HP.
Qed.

Lemma preserves_post_reply_step id replyMessage :
  preserves P (post_reply_step w extractSuggestion truncate id replyMessage).
Proof.
  unfold post_reply_step, console_log, console_error.
  preserve_with ltac:(apply preserves_replyToComment).
Qed.

Lemma preserves_resolveComment id commit replyMessage :
  preserves P (resolveComment w extractSuggestion truncate id commit
                              replyMessage).
Proof.
  unfold resolveComment, resolveThreadOnGitHub, console_log, console_warn,
    console_error.
  preserve_with ltac:(first [ apply preserves_post_reply_step
                            | apply preserves_executeGraphQLMutation
                            | apply preserves_fetchComments ]).
  all: apply preserves_exec; intros ? ?; by apply HP.
Qed.

Lemma preserves_unresolveComment id :
  preserves P (unresolveComment w extractSuggestion truncate id).
Proof.
  unfold unresolveComment, unresolveThreadOnGitHub, console_log, console_warn,
    console_error.
  preserve_with ltac:(first [ apply preserves_executeGraphQLMutation
                            | apply preserves_fetchComments ]).
  all: apply preserves_exec; intros ? ?; by apply HP.
Qed.

Lemma preserves_verifyOutdated id :
  preserves P (verifyOutdated w showComment_lines id).
Proof.
  unfold verifyOutdated, isFileDeleted, getFileModifiedTime, console_log,
    console_error.
  preserve.
Qed.

Lemma preserves_main command :
  preserves P (main w showComment_lines extractSuggestion truncate command).
Proof.
  destruct command; cbn [main].
  - apply preserves_fetchComments.
  - unfold addNote, console_log, console_error. preserve.
    apply preserves_exec; intros ? ?; by apply HP.
  - apply preserves_replyToComment.
  - unfold snoozeComment, console_log, console_error. preserve.
    apply preserves_exec; intros ? ?; by apply HP.
  - unfold unsnoozeComment, console_log, console_error. preserve.
    apply preserves_exec; intros ? ?; by apply HP.
  - unfold unsnoozeAll, console_log. preserve.
    apply preserves_exec; intros ? ?; by apply HP.
  - apply preserves_for_each. intros id. apply preserves_bind.
    + apply preserves_resolveComment.
    + intros _. apply preserves_when, preserves_emit.
  - apply preserves_unresolveComment.
  - apply preserves_verifyOutdated.
Qed.
End Commands_preserve.

(** ** The summary after a sync *)

Lemma print_lines_nil st : print_lines [] st = st.
Proof. destruct st. unfold print_lines. simpl. by rewrite app_nil_r. Qed.

Lemma print_lines_app l1 l2 st :
  print_lines l2 (print_lines l1 st) = print_lines (l1 ++ l2) st.
Proof. unfold print_lines. simpl. by rewrite fmap_app, app_assoc. Qed.

Lemma run_console_log l st : console_log l st = (Ret tt, print_lines [l] st).
Proof. done. Qed.

Lemma run_for_each_log ls : ∀ st,
  for_each ls console_log st = (Ret tt, print_lines ls st).
Proof.
  induction ls as [|l ls IH]; intros st; simpl.
  - by rewrite print_lines_nil.
  - unfold mbind, M_bind. rewrite run_console_log, IH.
    by rewrite print_lines_app.
Qed.

Lemma run_for_each_lines {A} (f : A → list (list Frag)) xs : ∀ st,
  for_each xs (λ x, for_each (f x) console_log) st
  = (Ret tt, print_lines (xs ≫= f) st).
Proof.
  induction xs as [|x xs IH]; intros st; simpl.
  - by rewrite print_lines_nil.
  - unfold mbind at 1, M_bind. rewrite run_for_each_log, IH.
    by rewrite print_lines_app.
Qed.

(** statusStats *)
Lemma find_group (f : string → Z) sev groups :
  List.find (λ r : string * Z, bool_decide (r.1 = sev)) ((λ g, (g, f g)) <$> groups)
  = if bool_decide (sev ∈ groups) then Some (sev, f sev) else None.
Proof.
  induction groups as [|g groups IH]; cbn [fmap list_fmap List.find fst].
  - rewrite bool_decide_false; [done|]. apply not_elem_of_nil.
  - destruct (decide (g = sev)) as [->|Hne].
    + rewrite !bool_decide_true; [done| |done]. apply list_elem_of_here.
    + rewrite (bool_decide_false (g = sev)) by done. rewrite IH.
      apply (f_equal (λ b : bool, if b then _ else _)).
      apply bool_decide_ext. rewrite elem_of_cons.
      split; [auto|intros [?|?]; [congruence|done]].
Qed.

Lemma sum_pending_count (l : list Comment) sev :
  sum_Z ((λ c, if bool_decide (pending c) then 1 else 0)
         <$> filter (λ c, severity c = sev) l)
  = Z.of_nat (length (filter (λ c, severity c = sev ∧ pending c) l)).
Proof.
  induction l as [|c l IH]; [done|].
  rewrite !filter_cons. destruct (decide (severity c = sev)) as [Hs|Hs].
  - cbn [fmap list_fmap sum_Z foldr]. fold (sum_Z ((λ c, if bool_decide (pending c) then 1 else 0)
         <$> filter (λ c, severity c = sev) l)). rewrite IH.
    destruct (decide (pending c)) as [Hp|Hp].
    + rewrite bool_decide_true, decide_True by done. simpl length. lia.
    + rewrite bool_decide_false by done. rewrite decide_False by tauto. lia.
  - rewrite decide_False by tauto. done.
Qed.

Lemma filter_none {A} (P : A → Prop) `{∀ x, Decision (P x)} (l : list A) :
  (∀ x, x ∈ l → ¬ P x) → filter P l = [].
Proof.
  induction l as [|x l IH]; intros Hall; [done|].
  rewrite filter_cons, decide_False by (apply Hall, list_elem_of_here).
  apply IH. intros y Hy. apply Hall. by apply list_elem_of_further.
Qed.

Lemma pending_count_of_statusStats s sev :
  pending_count_of (statusStats s) sev
  = Z.of_nat (length (filter (λ c, severity c = sev ∧ pending c) (rows s))).
Proof.
  unfold pending_count_of, statusStats.
  rewrite (find_group (λ g, sum_Z ((λ c, if bool_decide (pending c) then 1 else 0)
         <$> filter (λ c, severity c = g) (rows s)))).
  case_bool_decide as Hin.
  - cbn [snd]. rewrite sum_pending_count. by destruct (_ =? 0) eqn:E; [apply Z.eqb_eq in E|].
  - assert (Hnone : filter (λ c, severity c = sev ∧ pending c) (rows s) = []).
    { apply filter_none. intros c Hc [Hs _]. apply Hin.
      rewrite merge_sort_Permutation, elem_of_remove_dups.
      apply list_elem_of_fmap. eauto. }
    by rewrite Hnone.
Qed.

Lemma criticalCount_statusStats s :
  pending_count_of (statusStats s) "critical"
  = Z.of_nat (length (filter critical_pending (rows s))).
Proof. apply pending_count_of_statusStats. Qed.

Lemma run_when_log (b : bool) l st :
  when b (console_log l) st = (Ret tt, print_lines (if b then [l] else []) st).
Proof. destruct b; simpl; [done|by rewrite print_lines_nil]. Qed.

Lemma run_printCriticalPreview ext trunc n st :
  printCriticalPreview ext trunc n st
  = (Ret tt,
     print_lines
       ([T "
🔴 Next: "; Num n; T " Critical Item"; T (if n =? 1 then "" else "s")]
        :: (criticalItems (db st) ≫= critical_item_lines ext trunc)
        ++ (if bool_decide (n > 5)
            then [[T "   ... ("; Num (n - 5); T " more critical items)"]]
            else [])
        ++ [[T "
💡 Run 'bun "; T SCRIPT_NAME; T " pending --priority critical' to see all"]])
       st).
Proof.
  unfold printCriticalPreview, mbind, M_bind, query.
  rewrite run_console_log, run_for_each_lines, run_when_log, run_console_log.
  rewrite !print_lines_app. done.
Qed.

(** C7.  After its three status lines the summary prints the critical
    preview exactly when some comment is critical, unresolved and not
    snoozed; the preview lists the queried items, at most 5 of them and as
    many as there are up to 5, each a pending critical comment of the
    store; and with [n > 5] such comments it says that [n - 5] more
    exist. *)
Theorem critical_preview_is_capped ext trunc resolvedCount outdatedCount st :
  let s := db st in
  let n := Z.of_nat (length (filter critical_pending (rows s))) in
  let items := criticalItems s in
  let preview :=
    if bool_decide (n > 0) then
      [T "
🔴 Next: "; Num n; T " Critical Item"; T (if n =? 1 then "" else "s")]
      :: (items ≫= critical_item_lines ext trunc)
      ++ (if bool_decide (n > 5)
          then [[T "   ... ("; Num (n - 5); T " more critical items)"]]
          else [])
      ++ [[T "
💡 Run 'bun "; T SCRIPT_NAME; T " pending --priority critical' to see all"]]
    else [] in
  (∃ status, length status = 3%nat ∧
     printFetchSummary ext trunc resolvedCount outdatedCount st
     = (Ret tt, print_lines (status ++ preview) st)) ∧
  (n > 0 ↔ ∃ id c, comments s !! id = Some c ∧ severity c = "critical" ∧
                    github_resolved c = false ∧ waiting_reply c = false) ∧
  length items = Nat.min 5 (length (filter critical_pending (rows s))) ∧
  (length items ≤ 5)%nat ∧
  (∀ item, item ∈ items →
           critical_pending item ∧ ∃ id, comments s !! id = Some item).
Proof.
  intros s n items preview.
  assert (Hitems : ∀ item, item ∈ items →
            critical_pending item ∧ ∃ id, comments s !! id = Some item).
  { intros item Hin. unfold items, criticalItems in Hin.
    apply subseteq_take in Hin.
    rewrite merge_sort_Permutation in Hin.
    apply list_elem_of_filter in Hin as [Hp Hin]. split; [exact Hp|].
    unfold rows in Hin. apply list_elem_of_fmap in Hin as ([id c] & -> & Hin).
    apply elem_of_map_to_list in Hin. eauto. }
  assert (Hlen : length items
                 = Nat.min 5 (length (filter critical_pending (rows s)))).
  { unfold items, criticalItems. rewrite length_take.
    by rewrite merge_sort_Permutation. }
  split; [|split; [|split; [|split]]].
  - eexists [_; _; _]. split; [done|].
    unfold printFetchSummary, mbind, M_bind, query.
    rewrite !run_console_log. cbv beta iota.
    rewrite criticalCount_statusStats.
    unfold preview, n, items, s, when. case_bool_decide.
    + rewrite run_printCriticalPreview. rewrite !print_lines_app. done.
    + rewrite !print_lines_app. by rewrite app_nil_r.
  - unfold n. split.
    + intros Hpos. destruct (filter critical_pending (rows s)) as [|c l] eqn:Hf;
        [simpl in Hpos; lia|].
      assert (Hc : c ∈ filter critical_pending (rows s)) by (rewrite Hf; left).
      apply list_elem_of_filter in Hc as [[Hsev [Hr Hw]] Hin].
      unfold rows in Hin. apply list_elem_of_fmap in Hin as ([id c'] & -> & Hin).
      apply elem_of_map_to_list in Hin. eauto 10.
    + intros (id & c & Hc & Hsev & Hr & Hw).
      assert (Hin : c ∈ filter critical_pending (rows s)).
      { apply list_elem_of_filter. split; [by repeat split|].
        unfold rows. apply list_elem_of_fmap. exists (id, c).
        split; [done|]. by apply elem_of_map_to_list. }
      destruct (filter critical_pending (rows s)); [by apply not_elem_of_nil in Hin|].
      simpl. lia.
  - exact Hlen.
  - rewrite Hlen. lia.
  - exact Hitems.
Qed.

(** ** The snooze invariant *)

Lemma snooze_inv_alter (f : Comment → Comment) id s :
  (∀ c, row_inv c → row_inv (f c)) →
  snooze_inv s → snooze_inv (update_where_id f id s).1.
Proof.
  intros Hf Hs k c. cbn [update_where_id fst comments]. rewrite lookup_alter.
  case_decide as Hk.
  - subst k. destruct (comments s !! id) as [c0|] eqn:Hc0; [|done].
    intros [= <-]. apply Hf. exact (Hs id c0 Hc0).
  - apply Hs.
Qed.

Lemma upsert_row_snooze comment threadInfo now existing :
  (∀ old, existing = Some old → row_inv old) →
  row_inv (upsert_row comment threadInfo now existing).
Proof.
  intros Hold. unfold row_inv, upsert_row. destruct (parseComment _).
  cbn [waiting_reply snoozed_reply_count].
  destruct existing as [old|]; cbn; [|done].
  intros Hw. by rewrite (Hold old eq_refl Hw).
Qed.

Lemma snooze_inv_stable : stable snooze_inv.
Proof.
  repeat split.
  - intros c info now s Hs k row. cbn [upsertComment fst comments].
    rewrite lookup_insert. case_decide as Hk.
    + intros [= <-]. apply upsert_row_snooze. intros old Hold.
      exact (Hs _ old Hold).
    + apply Hs.
  - intros r s s' Hr Hs. unfold upsertReply in Hr.
    destruct (gh_in_reply_to_id r); [|done]. injection Hr as <-. exact Hs.
  - intros id s. by apply snooze_inv_alter.
  - intros n id s. apply snooze_inv_alter. intros c _ Hw. discriminate Hw.
  - intros fv id s. apply snooze_inv_alter. intros c Hc. exact Hc.
  - intros s Hs k c. cbn [unsnooze_all_rows fst comments]. rewrite lookup_fmap.
    destruct (comments s !! k) as [c0|] eqn:Hc0; [|done].
    intros [= <-]. destruct (waiting_reply c0) eqn:Hw; [done|].
    intros _. exact (Hs k c0 Hc0 Hw).
Qed.

(** C10.  A comment with [waiting_reply = false] has
    [snoozed_reply_count = 0]: this holds of the empty store, every
    statement of the script keeps it (upsert, reply upsert, snooze, the
    unsnooze of one row and of all rows, single-field updates), so do the
    auto-unsnooze pass and every command however it ends, and a first
    insert writes both columns as zero. *)
Theorem snooze_count_is_zero_unless_snoozed :
  snooze_inv empty_store ∧
  stable snooze_inv ∧
  (∀ s, snooze_inv s → snooze_inv (processAutoUnsnooze s).1) ∧
  (∀ w showComment_lines extractSuggestion truncate command st,
     snooze_inv (db st) →
     snooze_inv (db (main w showComment_lines extractSuggestion truncate
                          command st).2)) ∧
  (∀ comment threadInfo now s,
     comments s !! gh_id comment = None →
     ∃ row, comments (upsertComment comment threadInfo now s).1
              !! gh_id comment = Some row ∧
            waiting_reply row = false ∧ snoozed_reply_count row = Some 0).
Proof.
  split; [|split; [|split; [|split]]].
  - intros k c Hc. cbn [empty_store comments] in Hc.
    by rewrite lookup_empty in Hc.
  - exact snooze_inv_stable.
  - intros s. apply stable_processAutoUnsnooze, snooze_inv_stable.
  - intros w sh ex tr command st. apply preserves_main, snooze_inv_stable.
  - intros comment threadInfo now s Hnone. eexists.
    split; [apply upsert_lookup_same|]. rewrite Hnone.
    unfold upsert_row. by destruct (parseComment _).
Qed.

(** ** Resolving *)

Lemma exists_stable id : stable (λ s, is_Some (comments s !! id)).
Proof.
  repeat split.
  - intros c info now s Hs. cbn [upsertComment fst comments].
    rewrite lookup_insert. by case_decide.
  - intros r s s' Hr Hs. unfold upsertReply in Hr.
    destruct (gh_in_reply_to_id r); [|done]. injection Hr as <-. exact Hs.
  - intros k s Hs. cbn [update_where_id fst comments]. rewrite lookup_alter.
    case_decide; [subst; by apply fmap_is_Some|done].
  - intros n k s Hs. cbn [update_where_id fst comments]. rewrite lookup_alter.
    case_decide; [subst; by apply fmap_is_Some|done].
  - intros fv k s Hs. unfold updateCommentField.
    cbn [update_where_id fst comments]. rewrite lookup_alter.
    case_decide; [subst; by apply fmap_is_Some|done].
  - intros s Hs. cbn [unsnooze_all_rows fst comments]. rewrite lookup_fmap.
    by apply fmap_is_Some.
Qed.

(** C5.  Resolving or unresolving a stored comment whose [thread_id] is
    null prints two warnings and exits with status 1; the database is
    unchanged and no outside call is made (the tick does not move and the
    output holds no [Call]). *)
Theorem missing_thread_id_fails_loudly
    w extractSuggestion truncate (id : Z) (commit replyMessage : option string)
    (st : State) (c : Comment) :
  comments (db st) !! id = Some c →
  thread_id c = None →
  resolveComment w extractSuggestion truncate id commit replyMessage st
  = (Exit 1,
     mkState (db st) (tick st)
       (out st ++
        [Warn [T "⚠️ No thread ID for comment #"; Num id;
               T " - cannot resolve on GitHub"];
         Warn [T "   Try running: bun "; T SCRIPT_NAME; T " fetch"]])
       (deferredLogs st)) ∧
  unresolveComment w extractSuggestion truncate id st
  = (Exit 1,
     mkState (db st) (tick st)
       (out st ++
        [Warn [T "⚠️ No thread ID for comment #"; Num id;
               T " - cannot unresolve on GitHub"];
         Warn [T "   Try running: bun "; T SCRIPT_NAME; T " fetch"]])
       (deferredLogs st)).
Proof.
  intros Hc Ht. split.
  - unfold resolveComment, mbind, M_bind, query, getComment. rewrite Hc, Ht.
    unfold console_warn, emit, process_exit. cbn [db tick out deferredLogs].
    by rewrite <- app_assoc.
  - unfold unresolveComment, mbind, M_bind, query, getComment. rewrite Hc, Ht.
    unfold console_warn, emit, process_exit. cbn [db tick out deferredLogs].
    by rewrite <- app_assoc.
Qed.

Lemma some_NOT_FOUND_true r :
  some_NOT_FOUND r = true ↔
  ∃ es e, errors r = Some es ∧ e ∈ es ∧ e_type e = Some "NOT_FOUND".
Proof.
  unfold some_NOT_FOUND. destruct (errors r) as [es|]; split.
  - intros H. apply existsb_exists in H as (e & Hin & He).
    apply bool_decide_eq_true in He. exists es, e.
    split; [done|]. split; [by apply list_elem_of_In|done].
  - intros (es' & e & [= <-] & Hin & He). apply existsb_exists. exists e.
    split; [by apply list_elem_of_In|]. by apply bool_decide_eq_true.
  - discriminate.
  - intros (es & e & H & _). discriminate.
Qed.

Lemma some_NOT_FOUND_reports a r :
  answer_body a = Some r →
  some_NOT_FOUND r = true ↔ reports_NOT_FOUND a.
Proof.
  intros Ha. rewrite some_NOT_FOUND_true. unfold reports_NOT_FOUND. split.
  - intros (es & e & H). exists r, es, e. by split.
  - intros (r' & es & e & Hr' & H). rewrite Ha in Hr'. injection Hr' as <-.
    eauto.
Qed.

Lemma no_body_no_report a : answer_body a = None → ¬ reports_NOT_FOUND a.
Proof. intros Ha (r & es & e & Hr & _). congruence. Qed.

(** What a mutation returns when the provider does not confirm it. *)
Lemma mutation_not_confirmed w mutation tid operationName st :
  tid ≠ "" →
  let a := gh_graphql_mutation w (tick st) mutation tid in
  ¬ confirms (bool_decide (operationName = "resolve")) a →
  ∃ st',
    db st' = db st ∧
    (reports_NOT_FOUND a →
     executeGraphQLMutation w mutation tid operationName st
     = (Ret JsStale, st')) ∧
    (¬ reports_NOT_FOUND a →
     executeGraphQLMutation w mutation tid operationName st
     = (Ret JsFalse, st')).
Proof.
  intros Htid a Hno. unfold executeGraphQLMutation.
  rewrite bool_decide_false by done.
  unfold try_catch, shell, mbind, M_bind, outside. cbn [tick db out deferredLogs].
  fold a. destruct a as [r|e] eqn:Ha.
  - cbn [mret M_ret].
    assert (Hok : match match data_resolveReviewThread r with
                        | Some t => Some t
                        | None => data_unresolveReviewThread r
                        end with
                  | Some t => bool_decide (tp_isResolved t
                                = bool_decide (operationName = "resolve"))
                  | None => false
                  end = false).
    { apply not_true_is_false. intros Hok. apply Hno. exists r.
      destruct (data_resolveReviewThread r) as [t|] eqn:Hres.
      - exists t. apply bool_decide_eq_true in Hok. auto.
      - destruct (data_unresolveReviewThread r) as [t|] eqn:Hun; [|done].
        exists t. apply bool_decide_eq_true in Hok. auto. }
    rewrite Hok. destruct (some_NOT_FOUND r) eqn:Hnf.
    + eexists. split; [|split; [reflexivity|]]; [done|].
      intros Hn. exfalso. apply Hn.
      by apply (some_NOT_FOUND_reports (Json r) r).
    + eexists. split; [|split; [|reflexivity]]; [done|].
      intros Hy. apply (some_NOT_FOUND_reports (Json r) r) in Hy; [|done].
      congruence.
  - cbn [throw].
    destruct e as [[[r|]|]|].
    + destruct (some_NOT_FOUND r) eqn:Hnf.
      * eexists. split; [|split; [reflexivity|]]; [done|].
        intros Hn. exfalso. apply Hn.
        by apply (some_NOT_FOUND_reports (Throws (ShellError (Some (Some r)))) r).
      * eexists. split; [|split; [|reflexivity]]; [done|].
        intros Hy.
        apply (some_NOT_FOUND_reports (Throws (ShellError (Some (Some r)))) r)
          in Hy; [|done].
        congruence.
    + eexists. split; [|split; [|reflexivity]]; [done|].
      intros Hy. by apply no_body_no_report in Hy.
    + eexists. split; [|split; [|reflexivity]]; [done|].
      intros Hy. by apply no_body_no_report in Hy.
    + eexists. split; [|split; [|reflexivity]]; [done|].
      intros Hy. by apply no_body_no_report in Hy.
Qed.

(** Runs [resolveComment] up to its mutation, given the stored comment, its
    thread id and the outcome of the reply step. *)
Ltac reach_mutation :=
  unfold resolveComment, query, getComment;
  unfold mbind at 1, M_bind at 1;
  match goal with
  | Hc : comments _ !! _ = Some _, Ht : thread_id _ = Some _,
    Htruthy : truthy_str _ = true, Hpost : post_reply_step _ _ _ _ _ _ = _
    |- _ =>
      rewrite Hc, Ht, Htruthy; unfold mbind at 1, M_bind at 1; rewrite Hpost
  end;
  unfold mbind at 1, M_bind at 1; rewrite run_console_log;
  unfold mbind at 1, M_bind at 1; unfold resolveThreadOnGitHub at 1.

(** C4.  A resolve reaches its mutation with the thread id [tid], and the
    provider's answer does not show the thread resolved.  If the answer
    carries a NOT_FOUND error the mutation returns "stale", the command
    exits with status 1 and the comment's [thread_id] is null afterwards;
    otherwise the mutation returns false, the command exits with status 1
    and the database is as it was before the mutation. *)
Theorem stale_thread_is_invalidated
    w extractSuggestion truncate (id : Z) (commit replyMessage : option string)
    (st st1 : State) (c : Comment) (tid : string) :
  comments (db st) !! id = Some c →
  thread_id c = Some tid →
  tid ≠ "" →
  post_reply_step w extractSuggestion truncate id replyMessage st
    = (Ret tt, st1) →
  let answer := gh_graphql_mutation w (tick st1) ResolveThread tid in
  ¬ confirms true answer →
  (reports_NOT_FOUND answer →
   (resolveThreadOnGitHub w tid st1).1 = Ret JsStale ∧
   ∃ st2 c2,
     resolveComment w extractSuggestion truncate id commit replyMessage st
       = (Exit 1, st2) ∧
     db st2 = clearStaleThreadId id (db st1) ∧
     comments (db st2) !! id = Some c2 ∧ thread_id c2 = None) ∧
  (¬ reports_NOT_FOUND answer →
   (resolveThreadOnGitHub w tid st1).1 = Ret JsFalse ∧
   ∃ st2,
     resolveComment w extractSuggestion truncate id commit replyMessage st
       = (Exit 1, st2) ∧
     db st2 = db st1).
Proof.
  intros Hc Ht Htid Hpost answer Hno.
  pose (st1' := print_lines [[T "🔄 Resolving thread on GitHub..."]] st1).
  destruct (mutation_not_confirmed w ResolveThread tid "resolve" st1 Htid Hno)
    as (sa & Hdba & Hstale_a & Hfail_a).
  destruct (mutation_not_confirmed w ResolveThread tid "resolve" st1' Htid Hno)
    as (sb & Hdbb & Hstale_b & Hfail_b).
  assert (Hsome : is_Some (comments (db st1) !! id)).
  { pose proof (preserves_post_reply_step _ (exists_stable id) w extractSuggestion
                  truncate id replyMessage st) as Hp.
    rewrite Hpost in Hp. apply Hp. by rewrite Hc. }
  destruct Hsome as [c1 Hc1].
  assert (Htruthy : truthy_str (Some tid) = true) by (by destruct tid).
  split.
  - intros Hy. split.
    + unfold resolveThreadOnGitHub. by rewrite (Hstale_a Hy).
    + eexists _, (set_field (F_thread_id None) c1).
      reach_mutation. fold st1'. rewrite (Hstale_b Hy). cbn.
      split; [reflexivity|]. cbn [db]. rewrite Hdbb. cbn [print_lines db st1'].
      split; [reflexivity|].
      unfold clearStaleThreadId, updateCommentField. cbn [update_where_id fst comments].
      rewrite lookup_alter, decide_True by done. rewrite Hc1. done.
  - intros Hn. split.
    + unfold resolveThreadOnGitHub. by rewrite (Hfail_a Hn).
    + eexists. reach_mutation. fold st1'. rewrite (Hfail_b Hn). cbn.
      split; [reflexivity|]. cbn [db]. by rewrite Hdbb.
Qed.

(** ** Verifying an outdated comment *)

Lemma run_outside {A} c (answer : nat → A) st :
  outside c answer st
  = (Ret (answer (tick st)),
     mkState (db st) (S (tick st))
       (out st ++ match c with Some c => [Call c] | None => [] end)
       (deferredLogs st)).
Proof. done. Qed.

Lemma run_query {A} (f : Store → A) st : query f st = (Ret (f (db st)), st).
Proof. done. Qed.

Ltac step := unfold mbind at 1, M_bind at 1.

Lemma run_for_each_log_map {A} (f : A → list Frag) xs : ∀ st,
  for_each xs (λ x, console_log (f x)) st
  = (Ret tt, print_lines (f <$> xs) st).
Proof.
  induction xs as [|x xs IH]; intros st; simpl.
  - by rewrite print_lines_nil.
  - step. rewrite run_console_log, IH. by rewrite print_lines_app.
Qed.

(** The gap that [verifyOutdated] prints, from the two times. *)
Lemma modified_after_gap (m t : Z) :
  m > t →
  modified_after_lines (Some m) (Some t)
  = [[T "   Modified after comment: ⚠️  Yes (";
      Num (if bool_decide (m - t < 60 * 60000) then (m - t) / 60000
           else (m - t) / (60 * 60000));
      T (if bool_decide (m - t < 60 * 60000) then "m" else "h");
      T " later)"]].
Proof.
  intros Hgt. unfold modified_after_lines. rewrite bool_decide_true by done.
  cbv zeta. change (1000 * 60) with 60000.
  assert (Hiff : (m - t) / 60000 < 60 ↔ m - t < 60 * 60000).
  { split; intros H.
    - destruct (Z.lt_ge_cases (m - t) (60 * 60000)) as [Hlt|Hge]; [done|].
      assert (60 ≤ (m - t) / 60000) by (apply Z.div_le_lower_bound; lia). lia.
    - apply Z.div_lt_upper_bound; lia. }
  rewrite (bool_decide_ext _ _ Hiff).
  case_bool_decide; [done|].
  rewrite Z.div_div by lia. done.
Qed.

Ltac finish_verify :=
  eexists _, _; split; [reflexivity|]; split; [reflexivity|];
  cbn [print_lines out db tick deferredLogs]; cbv zeta;
  match goal with |- context [outdated ?c] => destruct (outdated c) end;
  cbn [negb fmap list_fmap app];
  rewrite ?fmap_app, ?app_nil_r, <- ?app_assoc;
  cbn [app fmap list_fmap]; reflexivity.

(** C8.  For an unresolved comment whose file exists, last modified at
    [m], and first seen at [t], [verifyOutdated] prints, right after the
    "File exists" line, the line "Modified after comment: Yes" exactly when
    [m > t], and "No" otherwise; the gap it shows is in minutes when it is
    under 60 minutes and in whole hours otherwise. *)
Theorem verify_flags_files_modified_after_first_seen
    w (showComment_lines : Store → Z → list (list Frag)) (id : Z)
    (st : State) (c : Comment) (m t : Z) :
  comments (db st) !! id = Some c →
  github_resolved c = false →
  file_exists w (tick st) (path c) = Some true →
  file_exists w (S (tick st)) (path c) = Some true →
  file_lastModified w (S (S (tick st))) (path c) = m →
  date_parse w (first_seen c) = Some t →
  let shown :=
    ((if outdated c then []
      else [[T "⚠️  Comment #"; Num id; T " is not marked as outdated"]])
     ++ showComment_lines (db st) id
     ++ [[T "🔍 Verification Info:
"]; [T "   File exists: "; T "✅ Yes"]])%list in
  let flag :=
    if bool_decide (m > t) then
      [T "   Modified after comment: ⚠️  Yes (";
       Num (if bool_decide (m - t < 60 * 60000) then (m - t) / 60000
            else (m - t) / (60 * 60000));
       T (if bool_decide (m - t < 60 * 60000) then "m" else "h");
       T " later)"]
    else [T "   Modified after comment: ✅ No"] in
  ∃ rest st',
    verifyOutdated w showComment_lines id st = (Ret tt, st') ∧
    db st' = db st ∧
    out st' = (out st ++ (Log <$> shown) ++ [Log flag] ++
               Log [T "
   📜 Recent commits for "; T (path c); T ":"] :: rest)%list.
Proof.
  intros Hc Hres Hex1 Hex2 Hm Ht shown flag. subst shown.
  assert (Hflag : modified_after_lines (Some m) (Some t) = [flag]).
  { unfold flag. case_bool_decide as Hgt.
    - by apply modified_after_gap.
    - unfold modified_after_lines. by rewrite bool_decide_false. }
  unfold verifyOutdated. step. rewrite run_query. unfold getComment. rewrite Hc.
  step. rewrite run_when_log. rewrite Hres.
  step. rewrite run_query.
  step. rewrite run_for_each_log.
  step. rewrite run_console_log.
  step. unfold isFileDeleted. step. rewrite run_outside.
  cbn [print_lines tick db out deferredLogs]. rewrite Hex1.
  cbn [mret M_ret negb].
  step. rewrite run_console_log.
  step. unfold getFileModifiedTime. step. rewrite run_outside.
  cbn [print_lines tick db out deferredLogs]. rewrite Hex2.
  step. rewrite run_outside. cbn [print_lines tick db out deferredLogs].
  rewrite Hm, Ht. cbn [mret M_ret].
  step. rewrite run_for_each_log, Hflag.
  step. rewrite run_console_log.
  step. rewrite run_outside. cbn [print_lines tick db out deferredLogs].
  destruct (git_log w _ (path c)) as [lines|].
  - step. step. rewrite run_for_each_log_map.
    destruct lines as [|first lines].
    + cbn [mret M_ret]. rewrite run_console_log. finish_verify.
    + step. rewrite run_console_log. step. rewrite run_console_log.
      rewrite run_console_log. rewrite run_console_log. finish_verify.
  - step. rewrite run_console_log. rewrite run_console_log. finish_verify.
Qed.

(** ** The figures of the summary *)

(** C9, on the code: the metadata holds one resolved thread with two
    comments; [fetchComments] prints "2 threads resolved", the number of
    comments that sit in resolved threads, where one distinct thread is
    resolved. *)
Theorem resolved_figure_counts_comments :
  let run := fetchComments one_thread_world no_suggestion no_truncate
                           DEFAULT_PR initial_state in
  run.1 = Ret tt ∧
  out run.2 !! 6%nat
    = Some (Log [T "   ✅ "; Num 2; T " threads resolved ⚠️  "; Num 0;
                 T " comments outdated"]) ∧
  size (resolved_threads [one_thread_page]) = 1%nat.
Proof. vm_compute. repeat split. Qed.

(** ** The theorems at the sample data *)

Lemma upsert_preserves_local_annotations_witness :
  comments sample_store !! 1 = Some sample_row ∧
  ∃ new,
    comments (upsertComment (sample_comment 1 None)
                (Some (mkThreadInfo "T2" true true))
                "2025-10-19T00:00:00.000Z" sample_store).1 !! 1 = Some new ∧
    notes new = Some "[2025-10-18T10:00:00.000Z] asked the bot" ∧
    resolved_commit new = Some "e749aa5948" ∧
    waiting_reply new = true ∧
    snoozed_reply_count new = Some 1 ∧
    body new = gh_body (sample_comment 1 None) ∧
    updated_at new = "2025-10-18T09:00:00Z" ∧
    outdated new = true ∧
    thread_id new = Some "T2" ∧
    github_resolved new = true.
Proof.
  split; [reflexivity|].
  apply (upsert_preserves_local_annotations sample_store (sample_comment 1 None)
           (Some (mkThreadInfo "T2" true true)) "2025-10-19T00:00:00.000Z"
           sample_row 1); reflexivity.
Defined.

Lemma first_seen_is_set_once_witness :
  comments empty_store !! 1 = None ∧
  let s1 := (upsertComment (sample_comment 1 None) None "t0" empty_store).1 in
  first_seen <$> comments s1 !! 1 = Some "t0" ∧
  first_seen <$>
    comments (upserts [(sample_comment 1 None, None, "t1");
                       (sample_comment 3 None, None, "t2");
                       (sample_comment 1 None, None, "t3")] s1) !! 1
    = Some "t0".
Proof.
  split; [reflexivity|].
  apply (first_seen_is_set_once empty_store (sample_comment 1 None) None "t0").
  reflexivity.
Defined.

Lemma auto_unsnooze_clears_exactly_on_new_replies_witness :
  comments sample_store !! 1 = Some sample_row ∧
  waiting_reply sample_row = true ∧
  Z.of_nat (size (replies_to 1 sample_store))
  > COALESCE (snoozed_reply_count sample_row) 0 ∧
  ∃ c', comments (processAutoUnsnooze sample_store).1 !! 1 = Some c' ∧
        c' = clear_snooze sample_row ∧
        waiting_reply c' = false ∧ snoozed_reply_count c' = Some 0.
Proof.
  split; [reflexivity|]. split; [reflexivity|]. split; [reflexivity|].
  apply (proj1 (proj2 (auto_unsnooze_clears_exactly_on_new_replies
                         sample_store)) 1 sample_row); reflexivity.
Defined.

Lemma NOT_FOUND_answer_reports : reports_NOT_FOUND NOT_FOUND_answer.
Proof.
  eexists _, _, _. split; [reflexivity|]. split; [reflexivity|].
  split; [apply list_elem_of_here|reflexivity].
Defined.

Lemma NOT_FOUND_answer_confirms_nothing : ¬ confirms true NOT_FOUND_answer.
Proof. intros (r & t & H & _). discriminate H. Defined.

Lemma stale_thread_is_invalidated_witness :
  (resolveThreadOnGitHub one_thread_world "T1" sample_state).1 = Ret JsStale ∧
  ∃ st2 c2,
    resolveComment one_thread_world no_suggestion no_truncate 1 None None
                   sample_state = (Exit 1, st2) ∧
    db st2 = clearStaleThreadId 1 sample_store ∧
    comments (db st2) !! 1 = Some c2 ∧ thread_id c2 = None.
Proof.
  apply (stale_thread_is_invalidated one_thread_world no_suggestion no_truncate
           1 None None sample_state sample_state sample_row "T1").
  - reflexivity.
  - reflexivity.
  - discriminate.
  - reflexivity.
  - exact NOT_FOUND_answer_confirms_nothing.
  - exact NOT_FOUND_answer_reports.
Defined.

Lemma missing_thread_id_fails_loudly_witness :
  (resolveComment one_thread_world no_suggestion no_truncate 1
                  (Some "e749aa5948") None unthreaded_state).1 = Exit 1 ∧
  (unresolveComment one_thread_world no_suggestion no_truncate 1
                    unthreaded_state).1 = Exit 1.
Proof.
  destruct (missing_thread_id_fails_loudly one_thread_world no_suggestion
              no_truncate 1 (Some "e749aa5948") None unthreaded_state
              (set_field (F_thread_id None) sample_row) eq_refl eq_refl)
    as [H1 H2].
  rewrite H1, H2. split; reflexivity.
Defined.

Lemma parse_first_marker_wins_witness :
  (parseComment (gh_body (sample_comment 1 None))).1 = "issue".
Proof.
  apply (proj1 (parse_first_marker_wins (gh_body (sample_comment 1 None)))
           "⚠️ Potential issue" "issue").
  - apply list_elem_of_here.
  - vm_compute. reflexivity.
  - intros m v Hin Hne.
    apply elem_of_cons in Hin as [[= -> ->]|Hin]; [done|].
    apply elem_of_cons in Hin as [[= -> ->]|Hin]; [vm_compute; reflexivity|].
    apply elem_of_cons in Hin as [[= -> ->]|Hin]; [vm_compute; reflexivity|].
    by apply elem_of_nil in Hin.
Defined.

Lemma critical_preview_is_capped_witness :
  (length (criticalItems (processAutoUnsnooze sample_store).1) ≤ 5)%nat.
Proof.
  exact (proj1 (proj2 (proj2 (proj2
           (critical_preview_is_capped no_suggestion no_truncate 0 0
              (mkState (processAutoUnsnooze sample_store).1 0 [] [])))))).
Defined.

Lemma verify_flags_files_modified_after_first_seen_witness :
  ∃ rest st',
    verifyOutdated one_thread_world (λ _ _, []) 1 sample_state = (Ret tt, st') ∧
    db st' = sample_store ∧
    out st' =
      ([Log [T "⚠️  Comment #"; Num 1; T " is not marked as outdated"];
        Log [T "🔍 Verification Info:
"];
        Log [T "   File exists: "; T "✅ Yes"];
        Log [T "   Modified after comment: ⚠️  Yes ("; Num 1; T "h";
             T " later)"];
        Log [T "
   📜 Recent commits for "; T "src/telemetry.zig"; T ":"]] ++ rest)%list.
Proof.
  apply (verify_flags_files_modified_after_first_seen one_thread_world
           (λ _ _, []) 1 sample_state sample_row 4000000 1000); reflexivity.
Defined.

Lemma snooze_count_is_zero_unless_snoozed_witness :
  snooze_inv
    (db (main one_thread_world (λ _ _, []) no_suggestion no_truncate
              (Cmd_fetch DEFAULT_PR) initial_state).2).
Proof.
  apply (proj1 (proj2 (proj2 (proj2 snooze_count_is_zero_unless_snoozed)))).
  exact (proj1 snooze_count_is_zero_unless_snoozed).
Defined.

(** * Further properties of the code

    What the commands do beyond the sentences of the specification: how
    they end, what they never change, and what their figures count. *)

(** ** Commands that never exit *)

Lemma never_exits_ret {A} (a : A) : never_exits (mret a : M A).
Proof. intros st c. discriminate. Qed.

Lemma never_exits_bind {A B} (m : M A) (k : A → M B) :
  never_exits m → (∀ a, never_exits (k a)) → never_exits (m ≫= k).
Proof.
  intros Hm Hk st c. unfold mbind, M_bind. specialize (Hm st).
  destruct (m st) as [[a|e|c'] st']; simpl in *; [apply Hk|discriminate|].
  by destruct (Hm c').
Qed.

Lemma never_exits_throw {A} e : never_exits (throw e : M A).
Proof. intros st c. discriminate. Qed.

Lemma never_exits_emit e : never_exits (emit e).
Proof. intros st c. discriminate. Qed.

Lemma never_exits_deferLog x : never_exits (deferLog x).
Proof. intros st c. discriminate. Qed.

Lemma never_exits_outside {A} c (answer : nat → A) :
  never_exits (outside c answer).
Proof. intros st c'. discriminate. Qed.

Lemma never_exits_query {A} (f : Store → A) : never_exits (query f).
Proof. intros st c. discriminate. Qed.

Lemma never_exits_exec {A} (f : Store → Store * A) : never_exits (exec f).
Proof. intros st c. unfold exec. by destruct (f (db st)). Qed.

Lemma never_exits_exec_or_throw f : never_exits (exec_or_throw f).
Proof. intros st c. unfold exec_or_throw. by destruct (f (db st)). Qed.

Lemma never_exits_printAtTheEnd {A} (block : M A) :
  never_exits block → never_exits (printAtTheEnd block).
Proof.
  intros Hm st c. unfold printAtTheEnd. specialize (Hm st).
  destruct (block st) as [[a|e|c'] st']; simpl in *; [discriminate..|].
  by destruct (Hm c').
Qed.

Lemma never_exits_for_each {A} (l : list A) (f : A → M unit) :
  (∀ x, never_exits (f x)) → never_exits (for_each l f).
Proof.
  intros Hf. induction l as [|x l IH]; simpl.
  - apply never_exits_ret.
  - apply never_exits_bind; [apply Hf|intros _; apply IH].
Qed.

Lemma never_exits_when b (m : M unit) : never_exits m → never_exits (when b m).
Proof. intros Hm. destruct b; [exact Hm|apply never_exits_ret]. Qed.

Ltac never_exits_step known :=
  cbv beta;
  lazymatch goal with
  | |- never_exits (mret _) => apply never_exits_ret
  | |- never_exits (mbind _ _) => apply never_exits_bind; [|intros ?]
  | |- never_exits (throw _) => apply never_exits_throw
  | |- never_exits (emit _) => apply never_exits_emit
  | |- never_exits (console_log _) => apply never_exits_emit
  | |- never_exits (console_warn _) => apply never_exits_emit
  | |- never_exits (console_error _) => apply never_exits_emit
  | |- never_exits (deferLog _) => apply never_exits_deferLog
  | |- never_exits (outside _ _) => apply never_exits_outside
  | |- never_exits (query _) => apply never_exits_query
  | |- never_exits (exec _) => apply never_exits_exec
  | |- never_exits (exec_or_throw _) => apply never_exits_exec_or_throw
  | |- never_exits (printAtTheEnd _) => apply never_exits_printAtTheEnd
  | |- never_exits (for_each _ _) => apply never_exits_for_each; intros ?
  | |- never_exits (when _ _) => apply never_exits_when
  | |- never_exits (match ?x with _ => _ end) => destruct x
  | |- never_exits (if ?x then _ else _) => destruct x
  | |- _ => known
  end.

Ltac never_exits_with known := repeat never_exits_step known.

Lemma never_exits_walk_pages prNumber pages : ∀ pageCount threadInfo,
  never_exits (walk_pages prNumber pages pageCount threadInfo).
Proof.
  induction pages as [|[p|e] rest IH]; intros pageCount threadInfo; simpl;
    never_exits_with ltac:(apply IH).
Qed.

Lemma never_exits_printFetchSummary ext trunc resolvedCount outdatedCount :
  never_exits (printFetchSummary ext trunc resolvedCount outdatedCount).
Proof.
  unfold printFetchSummary, printCriticalPreview.
  never_exits_with fail.
Qed.

Lemma never_exits_sync_block w ext trunc prNumber :
  never_exits
    (printAtTheEnd
       ('(comments, replies) ← fetchPRComments w prNumber;
        deferLog [T "   Found "; Num (Z.of_nat (length comments));
                  T " top-level comments, "; Num (Z.of_nat (length replies));
                  T " replies"];;
        threadInfo ← fetchThreadMetadata w prNumber;
        now ← outside None (clock_now w);
        '(newCount, updatedCount) ← exec (store_comments comments threadInfo now);
        for_each replies store_reply;;
        unsnoozedCount ← exec processAutoUnsnooze;
        let resolvedCount := count_values isResolved threadInfo in
        let outdatedCount := count_values isOutdated threadInfo in
        console_log [T "➡️  Imported "; Num newCount; T " new, 🔂 updated ";
                     Num updatedCount; T " existing comments, 📥 ";
                     Num (Z.of_nat (length replies)); T " replies"];;
        when (bool_decide (unsnoozedCount > 0))
          (console_log [T "   🔔 Auto-unsnoozed "; Num unsnoozedCount;
                        T " comments with new replies"]);;
        printFetchSummary ext trunc resolvedCount outdatedCount)).
Proof.
  unfold fetchPRComments, fetchThreadMetadata, shell, store_reply.
  never_exits_with ltac:(first [ apply never_exits_walk_pages
                               | apply never_exits_printFetchSummary ]).
Qed.

Lemma fetchComments_ends w ext trunc prNumber st :
  ∃ st', fetchComments w ext trunc prNumber st = (Ret tt, st') ∨
         fetchComments w ext trunc prNumber st = (Exit 1, st').
Proof.
  destruct (fetchComments w ext trunc prNumber st) as [r st2] eqn:Hrun.
  unfold fetchComments, mbind at 1, M_bind at 1 in Hrun.
  rewrite run_console_log in Hrun. unfold try_catch in Hrun.
  pose proof (never_exits_sync_block w ext trunc prNumber
                (print_lines [[T "📥 Fetching comments for PR #"; T prNumber;
                               T "..."]] st)) as Hne.
  destruct (printAtTheEnd _ _) as [[[]|e|c] st'].
  - injection Hrun as <- <-. eexists. by left.
  - injection Hrun as <- <-. eexists. by right.
  - by destruct (Hne c).
Qed.

(** X3.  A sync ends in one of two ways: it returns, or it calls
    [process.exit(1)].  No error escapes [fetchComments], and it exits with
    no other status. *)
Theorem fetch_returns_or_exits_with_1 w ext trunc prNumber st :
  (fetchComments w ext trunc prNumber st).1 = Ret tt ∨
  (fetchComments w ext trunc prNumber st).1 = Exit 1.
Proof.
  destruct (fetchComments_ends w ext trunc prNumber st) as [st' [H|H]];
    rewrite H; [by left|by right].
Qed.


(** ** The two fetches *)

Lemma filter_split_Permutation {A} (P : A → Prop) `{∀ x, Decision (P x)}
    (Q : A → Prop) `{∀ x, Decision (Q x)} (l : list A) :
  (∀ x, P x ↔ ¬ Q x) → (filter P l ++ filter Q l)%list ≡ₚ l.
Proof.
  intros HPQ. induction l as [|x l IH]; [done|].
  rewrite !filter_cons. destruct (decide (P x)) as [Hp|Hp].
  - rewrite decide_False by (by apply HPQ). simpl. by rewrite IH.
  - rewrite decide_True.
    + rewrite <- Permutation_middle. by rewrite IH.
    + destruct (decide (Q x)) as [Hq|Hq]; [done|]. exfalso. by apply Hp, HPQ.
Qed.

(** X1.  When the REST listing answers with an array, [fetchPRComments]
    returns two lists that together hold every fetched comment once: the
    top-level comments are those with no [in_reply_to_id] (missing, or 0),
    the replies those with one.  The database is not touched. *)
Theorem fetched_comments_are_split_in_two w prNumber st (l : list GhComment) :
  gh_pr_comments w (tick st) prNumber = Json (RestArray l) →
  ∃ topLevel replies st',
    fetchPRComments w prNumber st = (Ret (topLevel, replies), st') ∧
    db st' = db st ∧
    (topLevel ++ replies)%list ≡ₚ l ∧
    (∀ c, c ∈ topLevel ↔
          c ∈ l ∧ (gh_in_reply_to_id c = None ∨ gh_in_reply_to_id c = Some 0)) ∧
    (∀ c, c ∈ replies ↔
          c ∈ l ∧ ∃ parent, gh_in_reply_to_id c = Some parent ∧ parent ≠ 0).
Proof.
  intros Hl. unfold fetchPRComments, shell. unfold mbind at 1, M_bind at 1.
  unfold mbind at 1, M_bind at 1. rewrite run_outside, Hl. cbn [mret M_ret].
  eexists _, _, _. split; [reflexivity|]. split; [reflexivity|].
  split; [|split].
  - apply filter_split_Permutation. intros c.
    destruct (truthy_num (gh_in_reply_to_id c)); split; congruence.
  - intros c. rewrite list_elem_of_filter. unfold truthy_num.
    destruct (gh_in_reply_to_id c) as [n|].
    + destruct (Z.eqb_spec n 0) as [->|Hn]; simpl.
      * split; [intros [_ ?]; auto|]. intros [? _]. done.
      * split; [intros [? _]; done|]. intros [_ [?|[= ?]]]; done.
    + split; [intros [_ ?]; auto|]. intros [? _]. done.
  - intros c. rewrite list_elem_of_filter. unfold truthy_num.
    destruct (gh_in_reply_to_id c) as [n|].
    + destruct (Z.eqb_spec n 0) as [->|Hn]; simpl.
      * split; [intros [? _]; done|]. intros [_ (p & [= <-] & Hp)]. done.
      * split; [intros [_ ?]; eauto|]. intros [? _]. done.
    + split; [intros [? _]; done|]. intros [_ (p & ? & _)]. done.
Qed.

(** ** Mutations *)

(** X2.  A GraphQL mutation never throws and never exits: whatever the
    provider answers, [executeGraphQLMutation] returns one of its three
    results and leaves the database alone.  With an empty thread id it
    returns false after one warning, without calling the provider. *)
Theorem mutation_always_returns w mutation threadId operationName st :
  ∃ r st',
    executeGraphQLMutation w mutation threadId operationName st = (Ret r, st') ∧
    db st' = db st ∧
    (threadId = "" → r = JsFalse ∧ tick st' = tick st ∧
       out st' = (out st ++ [Warn [T "⚠️ No thread ID to "; T operationName]])%list).
Proof.
  unfold executeGraphQLMutation. case_bool_decide as Hid.
  - eexists _, _. split; [reflexivity|]. split; [reflexivity|]. done.
  - unfold try_catch, shell. unfold mbind at 1, M_bind at 1.
    unfold mbind at 1, M_bind at 1. rewrite run_outside.
    destruct (gh_graphql_mutation w (tick st) mutation threadId) as [r|e].
    + cbn [mret M_ret]. cbv beta iota.
      repeat match goal with
             | |- context [if ?b then _ else _] => destruct b
             end;
        eexists _, _; (split; [reflexivity|]); (split; [reflexivity|]); done.
    + cbn [throw]. destruct e as [[[r|]|]|];
        repeat match goal with
               | |- context [if ?b then _ else _] => destruct b
               end;
        eexists _, _; (split; [reflexivity|]); (split; [reflexivity|]); done.
Qed.


Ltac keeps_step known :=
  cbv beta;
  lazymatch goal with
  | |- preserves _ (mret _) => apply preserves_ret
  | |- preserves _ (mbind _ _) => apply preserves_bind; [|intros ?]
  | |- preserves _ (throw _) => apply preserves_throw
  | |- preserves _ (process_exit _) => apply preserves_exit
  | |- preserves _ (emit _) => apply preserves_emit
  | |- preserves _ (console_log _) => apply preserves_emit
  | |- preserves _ (console_warn _) => apply preserves_emit
  | |- preserves _ (console_error _) => apply preserves_emit
  | |- preserves _ (deferLog _) => apply preserves_deferLog
  | |- preserves _ (outside _ _) => apply preserves_outside
  | |- preserves _ (query _) => apply preserves_query
  | |- preserves _ (try_catch _ _) => apply preserves_try_catch; [|intros ?]
  | |- preserves _ (printAtTheEnd _) => apply preserves_printAtTheEnd
  | |- preserves _ (for_each _ _) => apply preserves_for_each; intros ?
  | |- preserves _ (when _ _) => apply preserves_when
  | |- preserves _ (match ?x with _ => _ end) => destruct x
  | |- preserves _ (if ?x then _ else _) => destruct x
  | |- _ => known
  end.

Ltac keeps_with known := repeat keeps_step known.

Section Sync_preserves.
Variable P : Store → Prop.
Hypothesis HP : sync_stable P.
Variable w : World.
Variable extractSuggestion : string → string.
Variable truncate : string → nat → string.

Lemma sync_stable_processAutoUnsnooze s : P s → P (processAutoUnsnooze s).1.
Proof.
  unfold processAutoUnsnooze. generalize (getSnoozedComments s) 0.
  intros l. revert s. induction l as [|p l IH]; intros s n Hs; [done|].
  cbn [foldl]. unfold unsnooze_step at 2. case_bool_decide.
  - apply IH. by apply HP.
  - by apply IH.
Qed.

Lemma sync_stable_store_comments comments threadInfo now s :
  P s → P (store_comments comments threadInfo now s).1.
Proof.
  unfold store_comments. generalize 0 at 1. generalize 0.
  revert s. induction comments as [|c l IH]; intros s n u Hs; [done|].
  cbn [foldl].
  pose proof (proj1 HP c (threadInfo !! gh_id c) now s Hs) as Hc.
  destruct (upsertComment c (threadInfo !! gh_id c) now s) as [s' []];
    by apply IH.
Qed.

Lemma sync_preserves_store_reply reply : preserves P (store_reply reply).
Proof.
  intros st H. unfold store_reply, exec_or_throw.
  destruct (upsertReply reply (db st)) eqn:Hr; [|done].
  simpl. by eapply HP.
Qed.

Lemma sync_preserves_fetchComments prNumber :
  preserves P (fetchComments w extractSuggestion truncate prNumber).
Proof.
  unfold fetchComments, fetchPRComments, fetchThreadMetadata, shell.
  keeps_with ltac:(first
    [ apply preserves_walk_pages
    | apply preserves_printFetchSummary
    | apply sync_preserves_store_reply
    | apply preserves_exec; intros ? ?;
      first [ by apply sync_stable_store_comments
            | by apply sync_stable_processAutoUnsnooze ] ]).
Qed.
End Sync_preserves.


(** A property of single rows that all statements keep on every row. *)
Lemma stable_rows (Q : Z → Comment → Prop) :
  (∀ c info now existing,
     (∀ old, existing = Some old → Q (gh_id c) old) →
     Q (gh_id c) (upsert_row c info now existing)) →
  (∀ id c, Q id c → Q id (clear_snooze c)) →
  (∀ id n c, Q id c → Q id (set_snooze n c)) →
  (∀ id fv c, Q id c → Q id (set_field fv c)) →
  stable (λ s, ∀ id c, comments s !! id = Some c → Q id c).
Proof.
  intros Hup Hclear Hsnooze Hfield.
  assert (Halter : ∀ (f : Comment → Comment) k s,
            (∀ id c, Q id c → Q id (f c)) →
            (∀ id c, comments s !! id = Some c → Q id c) →
            ∀ id c, comments (update_where_id f k s).1 !! id = Some c → Q id c).
  { intros f k s Hf Hs id c. cbn [update_where_id fst comments].
    rewrite lookup_alter. case_decide as Hk; [|apply Hs].
    subst k. destruct (comments s !! id) as [c0|] eqn:Hc0; [|done].
    intros [= <-]. apply Hf. by apply Hs. }
  repeat split.
  - intros c info now s Hs id row. cbn [upsertComment fst comments].
    rewrite lookup_insert. case_decide as Hk; [|apply Hs].
    intros [= <-]. subst id. apply Hup. intros old Hold. by apply Hs.
  - intros r s s' Hr Hs. unfold upsertReply in Hr.
    destruct (gh_in_reply_to_id r); [|done]. injection Hr as <-. exact Hs.
  - intros k s Hs. by apply Halter.
  - intros n k s Hs. apply Halter; [|done]. intros id c. apply Hsnooze.
  - intros fv k s Hs. apply Halter; [|done]. intros id c. apply Hfield.
  - intros s Hs id c. cbn [unsnooze_all_rows fst comments]. rewrite lookup_fmap.
    destruct (comments s !! id) as [c0|] eqn:Hc0; [|done].
    intros [= <-]. destruct (waiting_reply c0); [apply Hclear|]; by apply Hs.
Qed.

Lemma upsert_row_cid c info now existing :
  cid (upsert_row c info now existing) = gh_id c.
Proof. unfold upsert_row. by destruct (parseComment _). Qed.

(** *** Priority and severity stay in their ranges *)

Lemma scan_markers_range table firstLine found :
  scan_markers table firstLine found ∈ found :: table.*2.
Proof.
  induction table as [|[m v] table IH]; simpl.
  - apply list_elem_of_here.
  - destruct (includes firstLine m).
    + apply list_elem_of_further, list_elem_of_here.
    + apply elem_of_cons in IH as [->|IH].
      * apply list_elem_of_here.
      * by do 2 apply list_elem_of_further.
Qed.

Lemma parseComment_range body :
  known_priority (parseComment body).1 ∧ known_severity (parseComment body).2.
Proof.
  unfold parseComment, known_priority, known_severity. cbn [fst snd]. split.
  - pose proof (scan_markers_range PRIORITY_MARKERS (first_line body) "unknown")
      as H.
    cbn in H. revert H. rewrite !elem_of_cons, !elem_of_nil. tauto.
  - pose proof (scan_markers_range SEVERITY_MARKERS (first_line body) "unknown")
      as H.
    cbn in H. revert H. rewrite !elem_of_cons, !elem_of_nil. tauto.
Qed.

Lemma classified_stable : stable classified.
Proof.
  apply (stable_rows (λ _ c, known_priority (priority c) ∧
                              known_severity (severity c))).
  - intros c info now existing _. unfold upsert_row.
    pose proof (parseComment_range (gh_body c)) as H.
    by destruct (parseComment _).
  - done.
  - done.
  - done.
Qed.

(** X4.  [parseComment] yields one of the four priorities and one of the
    five severities, and a store whose rows all lie in these ranges stays
    so under every command of [main]. *)
Theorem priority_and_severity_stay_in_range
    w showComment_lines extractSuggestion truncate command st :
  (∀ body, known_priority (parseComment body).1 ∧
           known_severity (parseComment body).2) ∧
  (classified (db st) →
   classified
     (db (main w showComment_lines extractSuggestion truncate command st).2)).
Proof.
  split; [apply parseComment_range|].
  apply preserves_main, classified_stable.
Qed.

(** *** Nothing is deleted, and [first_seen] stays *)

Lemma seen_at_stable id t : stable (seen_at id t).
Proof.
  assert (Halter : ∀ (f : Comment → Comment) k s,
            (∀ c, first_seen (f c) = first_seen c) →
            seen_at id t s → seen_at id t (update_where_id f k s).1).
  { intros f k s Hf (c & Hc & Ht). unfold seen_at.
    cbn [update_where_id fst comments]. rewrite lookup_alter.
    case_decide as Hk.
    - subst k. rewrite Hc. eexists. split; [done|]. by rewrite Hf.
    - eauto. }
  repeat split.
  - intros c info now s (old & Hold & Ht). unfold seen_at.
    cbn [upsertComment fst comments]. rewrite lookup_insert.
    case_decide as Hk.
    + subst id. eexists. split; [done|].
      rewrite upsert_row_first_seen, Hold. done.
    + eauto.
  - intros r s s' Hr Hs. unfold upsertReply in Hr.
    destruct (gh_in_reply_to_id r); [|done]. injection Hr as <-. exact Hs.
  - intros k s. by apply Halter.
  - intros n k s. by apply Halter.
  - intros fv k s. by apply Halter.
  - intros s (c & Hc & Ht). unfold seen_at.
    cbn [unsnooze_all_rows fst comments]. rewrite lookup_fmap, Hc.
    eexists. split; [done|]. by destruct (waiting_reply c).
Qed.

Lemma reply_kept_stable rid : stable (λ s, is_Some (replies s !! rid)).
Proof.
  repeat split; try done.
  intros r s s' Hr Hs. unfold upsertReply in Hr.
  destruct (gh_in_reply_to_id r); [|done]. injection Hr as <-.
  cbn [replies]. rewrite lookup_insert. by case_decide.
Qed.

(** X5.  No command of [main] deletes anything: a stored comment is still
    stored afterwards, with the [first_seen] it had, and a stored reply is
    still stored, however the command ends. *)
Theorem nothing_is_deleted_and_first_seen_stays
    w showComment_lines extractSuggestion truncate command st :
  (∀ id c, comments (db st) !! id = Some c →
     ∃ c', comments (db (main w showComment_lines extractSuggestion truncate
                              command st).2) !! id = Some c' ∧
           first_seen c' = first_seen c) ∧
  (∀ rid, is_Some (replies (db st) !! rid) →
     is_Some (replies (db (main w showComment_lines extractSuggestion truncate
                                command st).2) !! rid)).
Proof.
  split.
  - intros id c Hc.
    apply (preserves_main _ (seen_at_stable id (first_seen c))). by exists c.
  - intros rid. apply (preserves_main _ (reply_kept_stable rid)).
Qed.

(** *** What a sync leaves alone *)

Lemma annotated_sync_stable id c : sync_stable (annotated id c).
Proof.
  repeat split.
  - intros u info now s (old & Hold & Hn & Hr & Hf & Hw). unfold annotated.
    cbn [upsertComment fst comments]. rewrite lookup_insert.
    case_decide as Hk; [|eauto 10].
    subst id. eexists. split; [done|]. rewrite Hold. unfold upsert_row.
    destruct (parseComment _). cbn. rewrite Hn, Hr, Hf. done.
  - intros r s s' Hr Hs. unfold upsertReply in Hr.
    destruct (gh_in_reply_to_id r); [|done]. injection Hr as <-. exact Hs.
  - intros k s (old & Hold & Hn & Hr & Hf & Hw). unfold annotated.
    cbn [update_where_id fst comments]. rewrite lookup_alter.
    case_decide as Hk; [|eauto 10].
    subst k. rewrite Hold. eexists. split; [done|]. cbn. done.
Qed.

(** X6.  A sync, whether it succeeds or fails half-way, leaves the local
    annotations of every stored comment: its notes, its resolved commit and
    its [first_seen]; and it snoozes nothing. *)
Theorem sync_leaves_local_annotations w extractSuggestion truncate prNumber st
    (id : Z) (c : Comment) :
  comments (db st) !! id = Some c →
  ∃ c', comments (db (fetchComments w extractSuggestion truncate prNumber
                                    st).2) !! id = Some c' ∧
        notes c' = notes c ∧ resolved_commit c' = resolved_commit c ∧
        first_seen c' = first_seen c ∧
        (waiting_reply c = false → waiting_reply c' = false).
Proof.
  intros Hc.
  apply (sync_preserves_fetchComments _ (annotated_sync_stable id c)).
  exists c. done.
Qed.


(** ** A failed fetch writes nothing *)

Lemma walk_pages_throws prNumber pages : ∀ pageCount threadInfo st,
  walk_throws pages = true →
  ∃ e st', walk_pages prNumber pages pageCount threadInfo st = (Throw e, st') ∧
           db st' = db st.
Proof.
  induction pages as [|[p|e] rest IH]; intros pageCount threadInfo st Hth;
    cbn [walk_pages walk_throws] in *.
  - eexists _, _. split; reflexivity.
  - unfold mbind at 1, M_bind at 1. cbn [emit].
    unfold mbind at 1, M_bind at 1. cbn [deferLog].
    destruct (COALESCE (hasNextPage <$> pageInfo p) false); [|done].
    edestruct IH as (e & st' & Hrun & Hdb); [exact Hth|].
    rewrite Hrun. eexists _, _. split; [reflexivity|]. by rewrite Hdb.
  - eexists _, _. split; reflexivity.
Qed.

(** X7.  When the REST listing fails, or the walk over the review threads
    fails after it, [fetchComments] exits with status 1 and the database is
    as before: nothing is written until both fetches have succeeded. *)
Theorem failed_fetch_writes_nothing w ext trunc prNumber st :
  (∃ e, gh_pr_comments w (tick st) prNumber = Throws e) ∨
  (∃ r, gh_pr_comments w (tick st) prNumber = Json r ∧
        walk_throws (gh_review_threads w (S (tick st)) prNumber) = true) →
  ∃ st', fetchComments w ext trunc prNumber st = (Exit 1, st') ∧
         db st' = db st.
Proof.
  intros H. unfold fetchComments. unfold mbind at 1, M_bind at 1.
  rewrite run_console_log. unfold try_catch, printAtTheEnd.
  unfold mbind at 1, M_bind at 1. unfold fetchPRComments.
  unfold mbind at 1, M_bind at 1. unfold shell.
  unfold mbind at 1, M_bind at 1. rewrite run_outside.
  cbn [print_lines tick db out deferredLogs].
  destruct H as [[e He]|(r & Hr & Hwalk)].
  - rewrite He. cbn. eexists. split; reflexivity.
  - rewrite Hr. cbn [mret M_ret]. cbv beta iota.
    unfold mbind at 1, M_bind at 1. cbn [deferLog].
    unfold mbind at 1, M_bind at 1. unfold fetchThreadMetadata.
    unfold mbind at 1, M_bind at 1. rewrite run_outside.
    cbn [tick db out deferredLogs].
    unfold mbind at 1, M_bind at 1.
    edestruct (walk_pages_throws prNumber
                 (gh_review_threads w (S (tick st)) prNumber))
      as (e & st' & Hrun & Hdb); [exact Hwalk|].
    rewrite Hrun. cbn. eexists. split; [reflexivity|]. cbn. exact Hdb.
Qed.


(** ** The counters of a sync *)

Lemma upsertComment_eq c info now s :
  upsertComment c info now s
  = (mkStore (<[gh_id c := upsert_row c info now (comments s !! gh_id c)]>
                (comments s)) (replies s),
     negb (bool_decide (is_Some (comments s !! gh_id c)))).
Proof. reflexivity. Qed.

Lemma store_comments_counts (l : list GhComment)
    (threadInfo : gmap Z ThreadInfo) (now : string) : ∀ (s : Store) (n u : Z),
  let r := foldl (λ '(s, (newCount, updatedCount)) comment,
                    let info := threadInfo !! gh_id comment in
                    let '(s', wasNew) := upsertComment comment info now s in
                    if wasNew : bool then (s', (newCount + 1, updatedCount))
                    else (s', (newCount, updatedCount + 1)))
                 (s, (n, u)) l in
  r.2.1 + r.2.2 = n + u + Z.of_nat (length l) ∧
  Z.of_nat (size (comments r.1))
    = Z.of_nat (size (comments s)) + (r.2.1 - n) ∧
  replies r.1 = replies s ∧
  (∀ id, is_Some (comments r.1 !! id) ↔
         is_Some (comments s !! id) ∨ id ∈ gh_id <$> l).
Proof.
  induction l as [|c l IH]; intros s n u.
  - cbn. repeat split; try lia.
    + tauto.
    + intros [?|H]; [done|]. by apply elem_of_nil in H.
  - cbn [foldl]. rewrite upsertComment_eq.
    destruct (comments s !! gh_id c) as [old|] eqn:Hold.
    + rewrite bool_decide_true by done. cbn [negb].
      specialize (IH (mkStore (<[gh_id c :=
                        upsert_row c (threadInfo !! gh_id c) now (Some old)]>
                        (comments s)) (replies s)) n (u + 1)).
      cbv zeta in IH |- *.
      destruct (foldl _ _ l) as [s' [n' u']]. cbn [fst snd] in *.
      destruct IH as (Hsum & Hsize & Hrep & Hdom).
      cbn [comments replies] in *.
      rewrite map_size_insert_Some in Hsize by (by rewrite Hold).
      split; [cbn [length]; lia|]. split; [lia|]. split; [exact Hrep|].
      intros id. rewrite Hdom.
      rewrite lookup_insert, fmap_cons, elem_of_cons.
      case_decide as Hk; [subst id|].
      * split; intros _; [right; by left|left; by eexists].
      * split; [intros [?|?]; auto|]. intros [?|[?|?]]; auto. congruence.
    + rewrite bool_decide_false by (by intros [? ?]). cbn [negb].
      specialize (IH (mkStore (<[gh_id c :=
                        upsert_row c (threadInfo !! gh_id c) now None]>
                        (comments s)) (replies s)) (n + 1) u).
      cbv zeta in IH |- *.
      destruct (foldl _ _ l) as [s' [n' u']]. cbn [fst snd] in *.
      destruct IH as (Hsum & Hsize & Hrep & Hdom).
      cbn [comments replies] in *.
      rewrite map_size_insert_None in Hsize by done.
      split; [cbn [length]; lia|]. split; [lia|]. split; [exact Hrep|].
      intros id. rewrite Hdom.
      rewrite lookup_insert, fmap_cons, elem_of_cons.
      case_decide as Hk; [subst id|].
      * split; intros _; [right; by left|left; by eexists].
      * split; [intros [?|?]; auto|]. intros [?|[?|?]]; auto. congruence.
Qed.

(** X8.  The two counters of the upsert loop add up to the number of
    top-level comments fetched; the table grows by the number counted as
    new; the replies are untouched; and afterwards an id is stored exactly
    when it was stored before or was fetched. *)
Theorem sync_counters_add_up (fetched : list GhComment)
    (threadInfo : gmap Z ThreadInfo) (now : string) (s : Store) :
  let '(s', (newCount, updatedCount)) :=
    store_comments fetched threadInfo now s in
  newCount + updatedCount = Z.of_nat (length fetched) ∧
  Z.of_nat (size (comments s'))
    = Z.of_nat (size (comments s)) + newCount ∧
  replies s' = replies s ∧
  (∀ id, is_Some (comments s' !! id) ↔
         is_Some (comments s !! id) ∨ id ∈ gh_id <$> fetched).
Proof.
  pose proof (store_comments_counts fetched threadInfo now s 0 0) as H.
  cbv zeta in H. fold (store_comments fetched threadInfo now s) in H.
  destruct (store_comments fetched threadInfo now s) as [s' [n u]].
  cbn [fst snd] in H. destruct H as (H1 & H2 & H3 & H4).
  repeat split; [lia|lia|done|apply H4|apply H4].
Qed.


(** ** A comment that is not stored *)

Lemma update_where_id_absent (f : Comment → Comment) id s :
  comments s !! id = None → update_where_id f id s = (s, 0).
Proof.
  intros Hc. unfold update_where_id. rewrite Hc.
  rewrite bool_decide_false by (by intros [? ?]).
  f_equal. destruct s as [cs rs]. cbn [comments replies] in *. f_equal.
  apply map_eq. intros j. rewrite lookup_alter. case_decide; [|done].
  subst j. by rewrite Hc.
Qed.

(** X9.  Every command that takes a comment id refuses an id that is not
    stored: it prints one error line and exits with status 1, the database
    is unchanged and no outside call is made.  ([replyToComment] announces
    the reply first.) *)
Theorem unknown_comment_is_refused
    w showComment_lines extractSuggestion truncate (id : Z) (st : State) :
  comments (db st) !! id = None →
  (∀ text, addNote w id text st = refused id st) ∧
  snoozeComment id st = refused id st ∧
  unsnoozeComment id st = refused id st ∧
  (∀ commit replyMessage,
     resolveComment w extractSuggestion truncate id commit replyMessage st
     = refused id st) ∧
  unresolveComment w extractSuggestion truncate id st = refused id st ∧
  verifyOutdated w showComment_lines id st = refused id st ∧
  (∀ text,
     replyToComment w extractSuggestion truncate id text st
     = (Exit 1,
        mkState (db st) (tick st)
          (out st ++
           [Log [T "💬 Replying to comment #"; Num id; T "..."];
            Error [T "❌ Comment #"; Num id; T " not found in database"]])
          (deferredLogs st))).
Proof.
  intros Hc. unfold refused. repeat split.
  - intros text. unfold addNote, mbind, M_bind, query, getComment.
    by rewrite Hc.
  - unfold snoozeComment, mbind, M_bind, query, exec.
    rewrite (update_where_id_absent _ _ _ Hc). by destruct st.
  - unfold unsnoozeComment, mbind, M_bind, query, exec.
    rewrite (update_where_id_absent _ _ _ Hc). by destruct st.
  - intros commit replyMessage.
    unfold resolveComment, mbind, M_bind, query, getComment. by rewrite Hc.
  - unfold unresolveComment, mbind, M_bind, query, getComment. by rewrite Hc.
  - unfold verifyOutdated, mbind, M_bind, query, getComment. by rewrite Hc.
  - intros text. unfold replyToComment. unfold mbind at 1, M_bind at 1.
    rewrite run_console_log. unfold try_catch.
    unfold mbind at 1, M_bind at 1. rewrite run_query.
    cbn [print_lines db]. unfold getComment. rewrite Hc.
    unfold mbind, M_bind, console_error, emit, process_exit.
    unfold print_lines. cbn [db tick out deferredLogs fmap list_fmap].
    by rewrite <- app_assoc.
Qed.

(** ** Unresolving *)

(** X10.  Unresolving behaves as resolving does on an answer that does not
    show the thread unresolved: with a NOT_FOUND error the command exits
    with status 1 after setting the comment's [thread_id] to null, every
    other field and row being kept; otherwise it exits with status 1 and
    the database is unchanged. *)
Theorem stale_thread_on_unresolve
    w extractSuggestion truncate (id : Z) (st : State) (c : Comment)
    (tid : string) :
  comments (db st) !! id = Some c →
  thread_id c = Some tid →
  tid ≠ "" →
  let answer := gh_graphql_mutation w (tick st) UnresolveThread tid in
  ¬ confirms false answer →
  (reports_NOT_FOUND answer →
   ∃ st2,
     unresolveComment w extractSuggestion truncate id st = (Exit 1, st2) ∧
     db st2 = clearStaleThreadId id (db st) ∧
     comments (db st2) !! id = Some (set_field (F_thread_id None) c) ∧
     (∀ id', id' ≠ id → comments (db st2) !! id' = comments (db st) !! id')) ∧
  (¬ reports_NOT_FOUND answer →
   ∃ st2,
     unresolveComment w extractSuggestion truncate id st = (Exit 1, st2) ∧
     db st2 = db st).
Proof.
  intros Hc Ht Htid answer Hno.
  pose (st1 := print_lines [[T "🔄 Unresolving thread on GitHub..."]] st).
  destruct (mutation_not_confirmed w UnresolveThread tid "unresolve" st1 Htid Hno)
    as (sb & Hdbb & Hstale & Hfail).
  assert (Htruthy : truthy_str (Some tid) = true) by (by destruct tid).
  split.
  - intros Hy. eexists.
    unfold unresolveComment, query, getComment.
    unfold mbind at 1, M_bind at 1. rewrite Hc, Ht, Htruthy.
    unfold mbind at 1, M_bind at 1. rewrite run_console_log. fold st1.
    unfold mbind at 1, M_bind at 1. unfold unresolveThreadOnGitHub at 1.
    rewrite (Hstale Hy). cbn.
    split; [reflexivity|]. cbn [db]. rewrite Hdbb. cbn [print_lines db st1].
    split; [reflexivity|].
    unfold clearStaleThreadId, updateCommentField.
    cbn [update_where_id fst comments]. split.
    + rewrite lookup_alter, decide_True by done. by rewrite Hc.
    + intros id' Hne. rewrite lookup_alter, decide_False by done. done.
  - intros Hn. eexists.
    unfold unresolveComment, query, getComment.
    unfold mbind at 1, M_bind at 1. rewrite Hc, Ht, Htruthy.
    unfold mbind at 1, M_bind at 1. rewrite run_console_log. fold st1.
    unfold mbind at 1, M_bind at 1. unfold unresolveThreadOnGitHub at 1.
    rewrite (Hfail Hn). cbn.
    split; [reflexivity|]. cbn [db]. by rewrite Hdbb.
Qed.


Lemma run_exec_ (f : Store → Store) st :
  exec_ f st = (Ret tt, mkState (f (db st)) (tick st) (out st) (deferredLogs st)).
Proof. reflexivity. Qed.

(** What a mutation returns when the provider confirms it. *)
Lemma mutation_confirmed w mutation tid operationName st :
  tid ≠ "" →
  confirms (bool_decide (operationName = "resolve"))
           (gh_graphql_mutation w (tick st) mutation tid) →
  ∃ st', executeGraphQLMutation w mutation tid operationName st
         = (Ret JsTrue, st') ∧ db st' = db st.
Proof.
  intros Htid (r & t & Ha & Hdata & Hres). unfold executeGraphQLMutation.
  rewrite bool_decide_false by done.
  unfold try_catch, shell. unfold mbind at 1, M_bind at 1.
  unfold mbind at 1, M_bind at 1. rewrite run_outside, Ha. cbn [mret M_ret].
  cbv beta iota.
  assert (Hok : match data_resolveReviewThread r with
                | Some t => Some t
                | None => data_unresolveReviewThread r
                end = Some t).
  { destruct Hdata as [->|[-> ->]]; done. }
  rewrite Hok, bool_decide_true by done.
  eexists. split; reflexivity.
Qed.

(** X11.  When the provider confirms the resolution, [resolveComment]
    records the commit given, or "HEAD" when none (or an empty one) is
    given, and the re-sync that follows keeps it, whether the re-sync
    succeeds (the command returns) or fails (exit 1). *)
Theorem confirmed_resolve_records_the_commit
    w extractSuggestion truncate (id : Z) (commit replyMessage : option string)
    (st st1 : State) (c : Comment) (tid : string) :
  comments (db st) !! id = Some c →
  thread_id c = Some tid →
  tid ≠ "" →
  post_reply_step w extractSuggestion truncate id replyMessage st
    = (Ret tt, st1) →
  confirms true (gh_graphql_mutation w (tick st1) ResolveThread tid) →
  ∃ r st2 c2,
    resolveComment w extractSuggestion truncate id commit replyMessage st
      = (r, st2) ∧
    (r = Ret tt ∨ r = Exit 1) ∧
    comments (db st2) !! id = Some c2 ∧
    (∀ h, commit = Some h → h ≠ "" → resolved_commit c2 = Some h) ∧
    (commit = None ∨ commit = Some "" → resolved_commit c2 = Some "HEAD").
Proof.
  intros Hc Ht Htid Hpost Hconf.
  pose (st1' := print_lines [[T "🔄 Resolving thread on GitHub..."]] st1).
  destruct (mutation_confirmed w ResolveThread tid "resolve" st1' Htid Hconf)
    as (sa & Hrun_a & Hdba).
  assert (Hsome : is_Some (comments (db st1) !! id)).
  { pose proof (preserves_post_reply_step _ (exists_stable id) w extractSuggestion
                  truncate id replyMessage st) as Hp.
    rewrite Hpost in Hp. apply Hp. by rewrite Hc. }
  destruct Hsome as [c1 Hc1].
  assert (Htruthy : truthy_str (Some tid) = true) by (by destruct tid).
  reach_mutation. fold st1'. rewrite Hrun_a. cbv beta iota.
  unfold mbind at 1, M_bind at 1. rewrite run_exec_.
  unfold mbind at 1, M_bind at 1. rewrite run_console_log.
  set (rc := match commit with
             | Some c0 => if truthy_str commit then c0 else "HEAD"
             | None => "HEAD"
             end).
  set (st3 := print_lines _ _).
  assert (Hc3 : comments (db st3) !! id
                = Some (set_field (F_resolved_commit (Some rc)) c1)).
  { unfold st3. cbn [print_lines db]. rewrite Hdba. cbn [st1' print_lines db].
    unfold updateCommentField. cbn [update_where_id fst comments].
    rewrite lookup_alter, decide_True by done. by rewrite Hc1. }
  pose proof (sync_preserves_fetchComments _
                (annotated_sync_stable id (set_field (F_resolved_commit (Some rc)) c1))
                w extractSuggestion truncate DEFAULT_PR st3) as Hkeep.
  destruct Hkeep as (c2 & Hc2 & _ & Hrc & _); [by eexists|].
  cbn [set_field resolved_commit] in Hrc.
  assert (Hrcs : (∀ h, commit = Some h → h ≠ "" → rc = h) ∧
                 (commit = None ∨ commit = Some "" → rc = "HEAD")).
  { unfold rc. split.
    - intros h -> Hh. by destruct h.
    - intros [->| ->]; done. }
  unfold mbind at 1, M_bind at 1.
  destruct (fetchComments_ends w extractSuggestion truncate DEFAULT_PR st3)
    as [st4 [Hrun|Hrun]]; rewrite Hrun in Hc2 |- *.
  - eexists _, _, c2. split; [reflexivity|]. split; [by left|].
    split; [exact Hc2|]. rewrite Hrc.
    split; [intros h ? ?; f_equal; by apply Hrcs|intros ?; f_equal; by apply Hrcs].
  - eexists _, _, c2. split; [reflexivity|]. split; [by right|].
    split; [exact Hc2|]. rewrite Hrc.
    split; [intros h ? ?; f_equal; by apply Hrcs|intros ?; f_equal; by apply Hrcs].
Qed.


(** ** Notes *)

(** X12.  [addNote] on a stored comment returns, and the notes afterwards
    are the notes before, a newline unless there were none, and the new
    note stamped with the time; no other field, row or reply changes. *)
Theorem notes_are_appended w (id : Z) (noteText : string) (st : State)
    (c : Comment) :
  comments (db st) !! id = Some c →
  ∃ st' sep,
    addNote w id noteText st = (Ret tt, st') ∧
    comments (db st') !! id
    = Some (set_field
              (F_notes (Some (or_empty (notes c) ++ sep ++ "[" ++
                              clock_now w (tick st) ++ "] " ++ noteText))) c) ∧
    sep = (if bool_decide (or_empty (notes c) = "") then ""
           else String newline "") ∧
    (∀ id', id' ≠ id → comments (db st') !! id' = comments (db st) !! id') ∧
    replies (db st') = replies (db st).
Proof.
  intros Hc. unfold addNote, query, getComment.
  unfold mbind at 1, M_bind at 1. rewrite Hc.
  unfold mbind at 1, M_bind at 1. rewrite run_outside.
  unfold mbind at 1, M_bind at 1. rewrite run_exec_.
  rewrite run_console_log.
  eexists _, (if bool_decide (or_empty (notes c) = "") then ""
              else String newline "").
  split; [reflexivity|].
  cbn [print_lines db]. unfold updateCommentField.
  cbn [update_where_id fst comments replies].
  split; [|split; [reflexivity|split; [|done]]].
  - rewrite lookup_alter, decide_True by done. rewrite Hc.
    cbn [fmap option_fmap option_map]. do 3 f_equal.
    destruct (notes c) as [[|a old]|]; cbn; done.
  - intros id' Hne. by rewrite lookup_alter, decide_False.
Qed.

(** ** Snoozing *)

Lemma getSnoozedComments_length s :
  length (getSnoozedComments s)
  = length (filter (λ kc, waiting_reply kc.2 = true) (map_to_list (comments s))).
Proof. unfold getSnoozedComments. by rewrite length_fmap. Qed.

(** X13.  [unsnoozeAll] reports the number of comments that were snoozed,
    leaves none snoozed, resets exactly the snoozed rows, keeps the
    replies, and run again reports 0 and changes nothing. *)
Theorem unsnooze_all_wakes_every_comment (st : State) :
  ∃ st',
    unsnoozeAll st = (Ret tt, st') ∧
    out st' = (out st ++
               [Log [T "✅ Unsnoozed ";
                     Num (Z.of_nat (length (getSnoozedComments (db st))));
                     T " comments"]])%list ∧
    getSnoozedComments (db st') = [] ∧
    (∀ id, comments (db st') !! id
           = (λ c, if waiting_reply c then clear_snooze c else c)
             <$> comments (db st) !! id) ∧
    replies (db st') = replies (db st) ∧
    unsnoozeAll st'
    = (Ret tt, print_lines [[T "✅ Unsnoozed "; Num 0; T " comments"]] st').
Proof.
  assert (Hnone : ∀ s, getSnoozedComments (unsnooze_all_rows s).1 = []).
  { intros s. apply elem_of_nil_inv. intros [k cnt] Hin.
    apply elem_of_getSnoozedComments in Hin as (c' & Hc' & Hw & _).
    cbn [unsnooze_all_rows fst comments] in Hc'. rewrite lookup_fmap in Hc'.
    destruct (comments s !! k) as [c|]; [|done]. injection Hc' as <-.
    destruct (waiting_reply c) eqn:Hwc; [done|congruence]. }
  unfold unsnoozeAll. unfold mbind at 1, M_bind at 1. unfold exec at 1.
  cbn [unsnooze_all_rows]. rewrite run_console_log.
  eexists. split; [reflexivity|]. cbn [print_lines db out].
  rewrite getSnoozedComments_length.
  split; [done|]. split; [apply (Hnone (db st))|].
  split; [intros id; cbn [comments]; by rewrite lookup_fmap|].
  split; [done|].
  unfold mbind at 1, M_bind at 1. unfold exec at 1.
  cbn [print_lines db tick out deferredLogs].
  change (mkStore _ _) with (unsnooze_all_rows (db st)).1 at 1.
  pose proof (Hnone (db st)) as H0. 
  pose proof (getSnoozedComments_length (unsnooze_all_rows (db st)).1) as Hlen.
  rewrite H0 in Hlen. cbn [length] in Hlen.
  cbn [unsnooze_all_rows fst] in Hlen |- *. rewrite <- Hlen.
  rewrite run_console_log. cbn [print_lines db tick out deferredLogs].
  cbn [comments replies].
  assert (Hidem : ∀ m : gmap Z Comment,
            (λ c, if waiting_reply c then clear_snooze c else c) <$>
            ((λ c, if waiting_reply c then clear_snooze c else c) <$> m)
            = (λ c, if waiting_reply c then clear_snooze c else c) <$> m).
  { intros m. apply map_eq. intros k. rewrite !lookup_fmap.
    destruct (m !! k) as [c|]; [|done]. cbn.
    destruct (waiting_reply c) eqn:Hw; [done|by rewrite Hw]. }
  by rewrite Hidem.
Qed.

Lemma getReplyCount_new_reply (reply : GhComment) id s s' :
  replies s !! gh_id reply = None →
  upsertReply reply s = Some s' →
  getReplyCount id s'
  = getReplyCount id s
    + (if bool_decide (gh_in_reply_to_id reply = Some id) then 1 else 0).
Proof.
  intros Hnew Hup. unfold upsertReply in Hup.
  destruct (gh_in_reply_to_id reply) as [parent|]; [|done].
  injection Hup as <-. unfold getReplyCount. cbn [replies].
  rewrite (map_to_list_insert _ _ _ Hnew), filter_cons. cbn [snd r_in_reply_to_id].
  destruct (decide (parent = id)) as [->|Hne].
  - rewrite bool_decide_true by done. cbn [length]. lia.
  - rewrite bool_decide_false by congruence. lia.
Qed.

(** X14.  Snoozing a stored comment records its current number of
    replies.  An auto-unsnooze pass right after leaves it snoozed; once one
    new reply to it is stored, the next pass wakes it, with every other
    field as before the snooze. *)
Theorem snooze_lasts_until_a_new_reply (id : Z) (st : State) (c : Comment) :
  comments (db st) !! id = Some c →
  ∃ st1,
    snoozeComment id st = (Ret tt, st1) ∧
    comments (db st1) !! id = Some (set_snooze (getReplyCount id (db st)) c) ∧
    replies (db st1) = replies (db st) ∧
    comments (processAutoUnsnooze (db st1)).1 !! id = comments (db st1) !! id ∧
    ∀ (reply : GhComment) s2,
      gh_in_reply_to_id reply = Some id →
      replies (db st1) !! gh_id reply = None →
      upsertReply reply (db st1) = Some s2 →
      comments (processAutoUnsnooze s2).1 !! id
      = Some (clear_snooze c).
Proof.
  intros Hc. unfold snoozeComment.
  unfold mbind at 1, M_bind at 1. rewrite run_query.
  unfold mbind at 1, M_bind at 1. unfold exec at 1.
  cbn [update_where_id]. rewrite Hc.
  rewrite bool_decide_true by done. cbn [Z.eqb]. rewrite run_console_log.
  eexists. split; [reflexivity|]. cbn [print_lines db].
  set (s1 := mkStore _ _).
  assert (Hc1 : comments s1 !! id
                = Some (set_snooze (getReplyCount id (db st)) c)).
  { unfold s1. cbn [comments]. rewrite lookup_alter, decide_True by done.
    by rewrite Hc. }
  split; [exact Hc1|]. split; [done|]. split.
  - unfold processAutoUnsnooze.
    destruct (unsnooze_loop (getSnoozedComments s1) s1 0) as [_ Hl].
    cbv zeta in Hl. rewrite Hl.
    rewrite (cleared_by_snoozed _ _ _ Hc1) by done.
    rewrite bool_decide_false; [done|].
    cbn [set_snooze snoozed_reply_count COALESCE].
    rewrite (getReplyCount_replies id s1 (db st)) by done. lia.
  - intros reply s2 Hparent Hnew Hup.
    pose proof (getReplyCount_new_reply reply id _ _ Hnew Hup) as Hcount.
    rewrite bool_decide_true in Hcount by done.
    assert (Hc2 : comments s2 !! id
                  = Some (set_snooze (getReplyCount id (db st)) c)).
    { unfold upsertReply in Hup. rewrite Hparent in Hup.
      injection Hup as <-. exact Hc1. }
    unfold processAutoUnsnooze.
    destruct (unsnooze_loop (getSnoozedComments s2) s2 0) as [_ Hl].
    cbv zeta in Hl. rewrite Hl.
    rewrite (cleared_by_snoozed _ _ _ Hc2) by done.
    rewrite bool_decide_true.
    + by rewrite Hc2.
    + cbn [set_snooze snoozed_reply_count COALESCE]. rewrite Hcount.
      rewrite (getReplyCount_replies id s1 (db st)) by done. lia.
Qed.


(** ** The pending figure of the summary *)

Lemma foldl_sum_Z {A} (f : A → Z) (l : list A) : ∀ n,
  foldl (λ sum row, sum + f row) n l = n + sum_Z (f <$> l).
Proof.
  induction l as [|x l IH]; intros n; cbn [foldl fmap list_fmap sum_Z foldr].
  - lia.
  - rewrite IH. fold (sum_Z (f <$> l)). lia.
Qed.

Lemma sum_Z_Permutation (l1 l2 : list Z) : l1 ≡ₚ l2 → sum_Z l1 = sum_Z l2.
Proof.
  induction 1 as [|x l1 l2 _ IH|x y l|l1 l2 l3 _ IH1 _ IH2];
    cbn [sum_Z foldr] in *; unfold sum_Z in *; lia.
Qed.

(** Over a list of distinct keys, exactly one names the key of [x]. *)
Lemma sum_Z_indicator (x : string) (k : Z) (g : list string) :
  NoDup g → x ∈ g →
  sum_Z ((λ sev, if decide (x = sev) then k else 0) <$> g) = k.
Proof.
  induction 1 as [|y g Hy _ IH]; intros Hin.
  - by apply elem_of_nil in Hin.
  - cbn [fmap list_fmap sum_Z foldr].
    fold (sum_Z ((λ sev, if decide (x = sev) then k else 0) <$> g)).
    destruct (decide (x = y)) as [->|Hne].
    + assert (Hz : sum_Z ((λ sev, if decide (y = sev) then k else 0) <$> g) = 0).
      { clear IH Hin. induction g as [|z g IHg]; [done|].
        cbn [fmap list_fmap sum_Z foldr].
        fold (sum_Z ((λ sev, if decide (y = sev) then k else 0) <$> g)).
        rewrite decide_False.
        - rewrite IHg; [done|]. intros ?. apply Hy. by apply list_elem_of_further.
        - intros ->. apply Hy. apply list_elem_of_here. }
      lia.
    + apply elem_of_cons in Hin as [?|Hin]; [done|]. rewrite IH by done. lia.
Qed.

Lemma sum_Z_zero {A} (l : list A) : sum_Z ((λ _, 0) <$> l) = 0.
Proof. induction l; [done|]. cbn [fmap list_fmap sum_Z foldr]. done. Qed.

Lemma sum_Z_add {A} (f h : A → Z) (l : list A) :
  sum_Z ((λ x, f x + h x) <$> l) = sum_Z (f <$> l) + sum_Z (h <$> l).
Proof.
  induction l as [|x l IH]; [done|]. cbn [fmap list_fmap sum_Z foldr].
  fold (sum_Z ((λ x, f x + h x) <$> l)) (sum_Z (f <$> l)) (sum_Z (h <$> l)).
  lia.
Qed.

Lemma sum_Z_ext {A} (f h : A → Z) (l : list A) :
  (∀ x, f x = h x) → sum_Z (f <$> l) = sum_Z (h <$> l).
Proof.
  intros Hfh. induction l as [|x l IH]; [done|].
  cbn [fmap list_fmap sum_Z foldr].
  fold (sum_Z (f <$> l)) (sum_Z (h <$> l)). by rewrite Hfh, IH.
Qed.

(** The groups of a [GROUP BY severity] hold every row once. *)
Lemma groups_partition (g : list string) (l : list Comment) :
  NoDup g → (∀ c, c ∈ l → severity c ∈ g) →
  sum_Z ((λ sev, Z.of_nat (length (filter (λ c, severity c = sev ∧ pending c) l)))
         <$> g)
  = Z.of_nat (length (filter pending l)).
Proof.
  intros Hg. induction l as [|c l IH]; intros Hall.
  - cbn. apply sum_Z_zero.
  - rewrite (sum_Z_ext _
      (λ sev, (if decide (severity c = sev) then
                 if decide (pending c) then 1 else 0 else 0)
              + Z.of_nat (length (filter (λ c, severity c = sev ∧ pending c) l)))).
    2:{ intros sev. rewrite filter_cons.
        destruct (decide (severity c = sev)) as [Hs|Hs];
          destruct (decide (pending c)) as [Hp|Hp].
        - rewrite decide_True by done. cbn [length]. lia.
        - rewrite decide_False by tauto. lia.
        - rewrite decide_False by tauto. lia.
        - rewrite decide_False by tauto. lia. }
    rewrite sum_Z_add, IH.
    2:{ intros c' Hc'. apply Hall. by apply list_elem_of_further. }
    rewrite sum_Z_indicator; [|done|apply Hall, list_elem_of_here].
    rewrite filter_cons. destruct (decide (pending c)); cbn [length]; lia.
Qed.

Lemma totalPending_statusStats s :
  foldl (λ sum row, sum + row.2) 0 (statusStats s)
  = Z.of_nat (length (filter pending (rows s))).
Proof.
  rewrite (foldl_sum_Z snd). unfold statusStats.
  rewrite <- list_fmap_compose.
  rewrite (sum_Z_ext _
    (λ sev, Z.of_nat (length (filter (λ c, severity c = sev ∧ pending c)
                                     (rows s))))).
  2:{ intros sev. cbn [compose snd]. apply sum_pending_count. }
  rewrite (sum_Z_Permutation _
    ((λ sev, Z.of_nat (length (filter (λ c, severity c = sev ∧ pending c)
                                      (rows s))))
     <$> remove_dups (severity <$> rows s))).
  2:{ apply fmap_Permutation, merge_sort_Permutation. }
  rewrite groups_partition; [lia|apply NoDup_remove_dups|].
  intros c Hc. apply elem_of_remove_dups, list_elem_of_fmap. eauto.
Qed.

(** X15.  The status lines of the summary: the pending figure is the number
    of rows that are unresolved and not snoozed, and each severity figure
    the number of such rows of that severity.  On a store whose severities
    are in range the pending figure is the sum of the four printed figures
    and of the pending rows of unknown severity, which are not printed. *)
Theorem summary_counts_pending_rows
    extractSuggestion truncate resolvedCount outdatedCount st :
  let count (P : Comment → Prop) `{∀ c, Decision (P c)} :=
    Z.of_nat (length (filter P (rows (db st)))) in
  let of_severity sev := count (λ c, severity c = sev ∧ pending c) in
  (∃ preview,
     printFetchSummary extractSuggestion truncate resolvedCount outdatedCount st
     = (Ret tt,
        print_lines
          ([T "📊 Current Status:"]
           :: [T "   ⏳ "; Num (count pending); T " pending (";
               Num (of_severity "critical"); T " 🔴 critical, ";
               Num (of_severity "major"); T " 🟠 major, ";
               Num (of_severity "minor"); T " 🟡 minor, ";
               Num (of_severity "trivial"); T " 🔵 trivial)"]
           :: [T "   ✅ "; Num resolvedCount; T " threads resolved ⚠️  ";
               Num outdatedCount; T " comments outdated"]
           :: preview) st)) ∧
  (classified (db st) →
   count pending
   = of_severity "critical" + of_severity "major" + of_severity "minor"
     + of_severity "trivial" + of_severity "unknown").
Proof.
  intros count of_severity. split.
  - unfold printFetchSummary, mbind, M_bind, query.
    rewrite !run_console_log. cbv beta iota.
    rewrite totalPending_statusStats, !pending_count_of_statusStats.
    unfold when. case_bool_decide.
    + rewrite run_printCriticalPreview. rewrite !print_lines_app.
      eexists. reflexivity.
    + rewrite !print_lines_app. exists []. reflexivity.
  - intros Hcl. unfold of_severity, count. cbv beta.
    rewrite <- (groups_partition
                  ["critical"; "major"; "minor"; "trivial"; "unknown"]).
    + cbn [fmap list_fmap sum_Z foldr]. lia.
    + apply (bool_decide_unpack _). by vm_compute.
    + intros c Hc. unfold rows in Hc.
      apply list_elem_of_fmap in Hc as ([id c'] & -> & Hin).
      apply elem_of_map_to_list in Hin. by apply (Hcl id c').
Qed.


(** ** Thread metadata *)

Lemma record_thread_lookup thread : ∀ m id info,
  record_thread m thread !! id = Some info →
  m !! id = Some info ∨
  ∃ comment, comment ∈ th_comments thread ∧ databaseId comment = id ∧
             describes thread comment info.
Proof.
  unfold record_thread. induction (th_comments thread) as [|x l IH];
    intros m id info Hl; cbn [foldl] in Hl; [by left|].
  apply IH in Hl as [Hl|(comment & Hin & Hid & Hd)].
  - rewrite lookup_insert in Hl. case_decide as Hk; [|by left].
    injection Hl as <-. right. exists x.
    split; [apply list_elem_of_here|]. by repeat split.
  - right. exists comment. split; [by apply list_elem_of_further|done].
Qed.

Lemma record_thread_is_Some thread : ∀ m id,
  is_Some (m !! id) ∨ id ∈ databaseId <$> th_comments thread →
  is_Some (record_thread m thread !! id).
Proof.
  unfold record_thread. induction (th_comments thread) as [|x l IH];
    intros m id Hl; cbn [foldl].
  - destruct Hl as [?|Hl]; [done|]. by apply elem_of_nil in Hl.
  - apply IH. rewrite fmap_cons, elem_of_cons in Hl.
    rewrite lookup_insert. case_decide as Hk; [by left; eexists|].
    destruct Hl as [?|[?|?]]; [by left|congruence|by right].
Qed.

Lemma record_threads_lookup threads : ∀ m id info,
  foldl record_thread m threads !! id = Some info →
  m !! id = Some info ∨
  ∃ thread comment, thread ∈ threads ∧ comment ∈ th_comments thread ∧
                    databaseId comment = id ∧ describes thread comment info.
Proof.
  induction threads as [|t threads IH]; intros m id info Hl; cbn [foldl] in Hl;
    [by left|].
  apply IH in Hl as [Hl|(thread & comment & Hin & H)].
  - apply record_thread_lookup in Hl as [?|(comment & H)]; [by left|].
    right. exists t, comment. split; [apply list_elem_of_here|done].
  - right. exists thread, comment. split; [by apply list_elem_of_further|done].
Qed.

Lemma record_threads_is_Some threads : ∀ m id,
  is_Some (m !! id) ∨
  (∃ thread, thread ∈ threads ∧ id ∈ databaseId <$> th_comments thread) →
  is_Some (foldl record_thread m threads !! id).
Proof.
  induction threads as [|t threads IH]; intros m id Hl; cbn [foldl].
  - destruct Hl as [?|(thread & Hin & _)]; [done|]. by apply elem_of_nil in Hin.
  - apply IH. destruct Hl as [?|(thread & Hin & Hid)].
    + left. apply record_thread_is_Some. by left.
    + apply elem_of_cons in Hin as [->|Hin].
      * left. apply record_thread_is_Some. by right.
      * right. eauto.
Qed.

Lemma run_walk_pages prNumber pages : ∀ pageCount threadInfo st,
  walk_throws pages = false →
  ∃ st',
    walk_pages prNumber pages pageCount threadInfo st
    = (Ret (foldl record_thread threadInfo (threads_read pages),
            pageCount + Z.of_nat (length (walked pages))), st') ∧
    db st' = db st ∧ tick st' = tick st.
Proof.
  induction pages as [|[p|e] rest IH]; intros pageCount threadInfo st Hth;
    cbn [walk_pages walk_throws] in *; [done| |done].
  unfold mbind at 1, M_bind at 1. cbn [emit].
  unfold mbind at 1, M_bind at 1. cbn [deferLog].
  unfold threads_read. cbn [walked].
  destruct (COALESCE (hasNextPage <$> pageInfo p) false).
  - edestruct IH as (st' & Hrun & Hdb & Htick); [exact Hth|].
    rewrite Hrun. exists st'. split; [|by rewrite Hdb, Htick].
    do 3 f_equal.
    + cbn [mbind list_bind]. by rewrite foldl_app.
    + cbn [length]. lia.
  - cbn [mret M_ret]. eexists. split.
    + do 3 f_equal. cbn [mbind list_bind]. by rewrite app_nil_r.
    + done.
Qed.

Lemma run_fetchThreadMetadata w prNumber st :
  walk_throws (gh_review_threads w (tick st) prNumber) = false →
  ∃ st',
    fetchThreadMetadata w prNumber st
    = (Ret (foldl record_thread ∅
              (threads_read (gh_review_threads w (tick st) prNumber))), st') ∧
    db st' = db st ∧ tick st' = S (tick st).
Proof.
  intros Hth. unfold fetchThreadMetadata.
  unfold mbind at 1, M_bind at 1. rewrite run_outside.
  unfold mbind at 1, M_bind at 1.
  edestruct (run_walk_pages prNumber (gh_review_threads w (tick st) prNumber))
    as (st' & Hrun & Hdb & Htick); [exact Hth|].
  rewrite Hrun. cbv beta iota.
  unfold mbind at 1, M_bind at 1. cbn [deferLog mret M_ret].
  eexists. split; [reflexivity|]. cbn [db tick]. by rewrite Hdb, Htick.
Qed.

(** X16.  When no request of the walk fails, [fetchThreadMetadata] returns
    a map in which every entry describes a comment of a thread that was
    read (the thread's id and resolution, the comment's own outdated flag),
    and every comment of every thread read has an entry. *)
Theorem thread_metadata_maps_every_comment w prNumber st :
  walk_throws (gh_review_threads w (tick st) prNumber) = false →
  ∃ threadInfo st',
    fetchThreadMetadata w prNumber st = (Ret threadInfo, st') ∧
    db st' = db st ∧
    (∀ id info, threadInfo !! id = Some info →
       ∃ thread comment,
         thread ∈ threads_read (gh_review_threads w (tick st) prNumber) ∧
         comment ∈ th_comments thread ∧ databaseId comment = id ∧
         describes thread comment info) ∧
    (∀ thread comment,
       thread ∈ threads_read (gh_review_threads w (tick st) prNumber) →
       comment ∈ th_comments thread →
       is_Some (threadInfo !! databaseId comment)).
Proof.
  intros Hth.
  destruct (run_fetchThreadMetadata w prNumber st Hth)
    as (st' & Hrun & Hdb & _).
  eexists _, _. split; [exact Hrun|]. split; [exact Hdb|]. split.
  - intros id info Hl. apply record_threads_lookup in Hl as [Hl|Hl]; [|done].
    by rewrite lookup_empty in Hl.
  - intros thread comment Hin Hc. apply record_threads_is_Some. right.
    exists thread. split; [done|]. apply list_elem_of_fmap. eauto.
Qed.


(** ** A sync that succeeds *)

Lemma run_printFetchSummary ext trunc resolvedCount outdatedCount st :
  ∃ lines, printFetchSummary ext trunc resolvedCount outdatedCount st
           = (Ret tt, print_lines lines st).
Proof.
  unfold printFetchSummary, mbind, M_bind, query.
  rewrite !run_console_log. cbv beta iota.
  unfold when. case_bool_decide.
  - rewrite run_printCriticalPreview. rewrite !print_lines_app.
    eexists. reflexivity.
  - rewrite !print_lines_app. eexists. reflexivity.
Qed.

Lemma run_store_replies (rs : list GhComment) : ∀ st,
  (∀ r, r ∈ rs → truthy_num (gh_in_reply_to_id r) = true) →
  ∃ st',
    for_each rs store_reply st = (Ret tt, st') ∧
    comments (db st') = comments (db st) ∧
    (∀ rid, is_Some (replies (db st) !! rid) ∨ rid ∈ gh_id <$> rs →
            is_Some (replies (db st') !! rid)).
Proof.
  induction rs as [|r rs IH]; intros st Hall; cbn [for_each].
  - eexists. split; [reflexivity|]. split; [done|].
    intros rid [?|Hin]; [done|]. by apply elem_of_nil in Hin.
  - unfold mbind at 1, M_bind at 1. unfold store_reply at 1, exec_or_throw.
    pose proof (Hall r (list_elem_of_here _ _)) as Hr. unfold upsertReply.
    destruct (gh_in_reply_to_id r) as [parent|]; [|done]. cbn [mbind option_bind].
    edestruct IH as (st' & Hrun & Hc & Hrep).
    { intros r' Hr'. apply Hall. by apply list_elem_of_further. }
    rewrite Hrun. exists st'. split; [done|]. split; [by rewrite Hc|].
    intros rid Hrid. apply Hrep. cbn [db replies].
    rewrite lookup_insert. case_decide as Hk; [left; by eexists|].
    rewrite fmap_cons, elem_of_cons in Hrid.
    destruct Hrid as [?|[?|?]]; [by left|congruence|by right].
Qed.

Lemma store_comments_threaded (l : list GhComment)
    (threadInfo : gmap Z ThreadInfo) (now : string) : ∀ (s : Store) (n u : Z) id,
  threaded threadInfo id s ∨ id ∈ gh_id <$> l →
  threaded threadInfo id
    (foldl (λ '(s, (newCount, updatedCount)) comment,
              let info := threadInfo !! gh_id comment in
              let '(s', wasNew) := upsertComment comment info now s in
              if wasNew : bool then (s', (newCount + 1, updatedCount))
              else (s', (newCount, updatedCount + 1)))
           (s, (n, u)) l).1.
Proof.
  induction l as [|c l IH]; intros s n u id Hid; cbn [foldl].
  - destruct Hid as [?|Hin]; [done|]. by apply elem_of_nil in Hin.
  - rewrite upsertComment_eq.
    assert (Hstep : threaded threadInfo id
              (mkStore (<[gh_id c := upsert_row c (threadInfo !! gh_id c) now
                                      (comments s !! gh_id c)]> (comments s))
                       (replies s)) ∨ id ∈ gh_id <$> l).
    { rewrite fmap_cons, elem_of_cons in Hid.
      destruct (decide (id = gh_id c)) as [->|Hne].
      - left. eexists. cbn [comments]. rewrite lookup_insert, decide_True by done.
        split; [done|]. unfold upsert_row. by destruct (parseComment _).
      - destruct Hid as [(row & Hrow & H)|[?|?]]; [|done|by right].
        left. exists row. cbn [comments].
        by rewrite lookup_insert, decide_False. }
    destruct (negb _); by apply IH.
Qed.

Lemma threaded_processAutoUnsnooze threadInfo id s :
  threaded threadInfo id s → threaded threadInfo id (processAutoUnsnooze s).1.
Proof.
  intros (row & Hrow & H). unfold processAutoUnsnooze.
  destruct (unsnooze_loop (getSnoozedComments s) s 0) as [_ Hl].
  cbv zeta in Hl. unfold threaded. rewrite Hl, Hrow.
  destruct (cleared_by _ _ _); eexists; (split; [reflexivity|exact H]).
Qed.

Lemma failed_walk_exits w ext trunc prNumber st r :
  gh_pr_comments w (tick st) prNumber = Json r →
  walk_throws (gh_review_threads w (S (tick st)) prNumber) = true →
  ∃ st', fetchComments w ext trunc prNumber st = (Exit 1, st').
Proof.
  intros Hr Hwalk. unfold fetchComments. unfold mbind at 1, M_bind at 1.
  rewrite run_console_log. unfold try_catch, printAtTheEnd.
  unfold mbind at 1, M_bind at 1. unfold fetchPRComments.
  unfold mbind at 1, M_bind at 1. unfold shell.
  unfold mbind at 1, M_bind at 1. rewrite run_outside.
  cbn [print_lines tick db out deferredLogs].
  rewrite Hr. cbn [mret M_ret]. cbv beta iota.
  unfold mbind at 1, M_bind at 1. cbn [deferLog].
  unfold mbind at 1, M_bind at 1. unfold fetchThreadMetadata.
  unfold mbind at 1, M_bind at 1. rewrite run_outside.
  cbn [tick db out deferredLogs].
  unfold mbind at 1, M_bind at 1.
  edestruct (walk_pages_throws prNumber
               (gh_review_threads w (S (tick st)) prNumber))
    as (e & st' & Hrun & Hdb); [exact Hwalk|].
  rewrite Hrun. cbn. eexists. reflexivity.
Qed.

(** The run of a sync on well-formed comments, when both fetches succeed. *)
Lemma run_fetchComments
    w extractSuggestion truncate prNumber st (l : list GhComment) :
  gh_pr_comments w (tick st) prNumber = Json (RestArray l) →
  walk_throws (gh_review_threads w (S (tick st)) prNumber) = false →
  let threadInfo :=
    foldl record_thread ∅
          (threads_read (gh_review_threads w (S (tick st)) prNumber)) in
  ∃ st',
    fetchComments w extractSuggestion truncate prNumber st = (Ret tt, st') ∧
    ∀ c, c ∈ l →
      if truthy_num (gh_in_reply_to_id c)
      then is_Some (replies (db st') !! gh_id c)
      else threaded threadInfo (gh_id c) (db st').
Proof.
  intros Hl Hwalk threadInfo.
  unfold fetchComments. unfold mbind at 1, M_bind at 1.
  rewrite run_console_log. unfold try_catch, printAtTheEnd.
  unfold mbind at 1, M_bind at 1. unfold fetchPRComments.
  unfold mbind at 1, M_bind at 1. unfold shell.
  unfold mbind at 1, M_bind at 1. rewrite run_outside.
  cbn [print_lines tick db out deferredLogs]. rewrite Hl.
  cbn [mret M_ret]. cbv beta iota.
  unfold mbind at 1, M_bind at 1. cbn [deferLog].
  unfold mbind at 1, M_bind at 1.
  set (st1 := mkState _ _ _ _).
  destruct (run_fetchThreadMetadata w prNumber st1 Hwalk)
    as (st2 & Hmeta & Hdb2 & _).
  rewrite Hmeta. cbn [st1 tick]. fold threadInfo.
  unfold mbind at 1, M_bind at 1. rewrite run_outside.
  unfold mbind at 1, M_bind at 1. unfold exec at 1. cbn [db].
  set (tops := filter (λ c, truthy_num (gh_in_reply_to_id c) = false) l).
  set (rs := filter (λ c, truthy_num (gh_in_reply_to_id c) = true) l).
  destruct (store_comments tops threadInfo (clock_now w (tick st2)) (db st2))
    as [s3 [newCount updatedCount]] eqn:Hstore.
  unfold mbind at 1, M_bind at 1.
  set (st3 := mkState s3 _ _ _).
  edestruct (run_store_replies rs st3) as (st4 & Hrun4 & Hc4 & Hr4).
  { intros r Hr. by apply list_elem_of_filter in Hr as [? _]. }
  rewrite Hrun4.
  unfold mbind at 1, M_bind at 1. unfold exec at 1.
  destruct (processAutoUnsnooze (db st4)) as [s5 unsnoozedCount] eqn:Hauto.
  unfold mbind at 1, M_bind at 1. rewrite run_console_log.
  unfold mbind at 1, M_bind at 1. rewrite run_when_log.
  set (st6 := print_lines _ (print_lines _ _)).
  edestruct (run_printFetchSummary extractSuggestion truncate
               (count_values isResolved threadInfo)
               (count_values isOutdated threadInfo) st6) as [lines Hsum].
  rewrite Hsum. eexists. split; [reflexivity|].
  cbn [db print_lines st6].
  intros c Hc. destruct (truthy_num (gh_in_reply_to_id c)) eqn:Htruthy.
  - assert (Hrep5 : replies s5 = replies (db st4)).
    { pose proof (unsnooze_loop (getSnoozedComments (db st4)) (db st4) 0) as H.
      cbv zeta in H. unfold processAutoUnsnooze in Hauto. rewrite Hauto in H.
      apply H. }
    rewrite Hrep5. apply Hr4. right. apply list_elem_of_fmap. exists c.
    split; [done|]. by apply list_elem_of_filter.
  - pose proof (threaded_processAutoUnsnooze threadInfo (gh_id c) (db st4)) as H5.
    rewrite Hauto in H5. apply H5.
    assert (H3 : threaded threadInfo (gh_id c)
                   (store_comments tops threadInfo (clock_now w (tick st2))
                                   (db st2)).1).
    { apply (store_comments_threaded tops threadInfo (clock_now w (tick st2))
               (db st2) 0 0).
      right. apply list_elem_of_fmap. exists c.
      split; [done|]. by apply list_elem_of_filter. }
    rewrite Hstore in H3. destruct H3 as (row & Hrow & H). exists row. by rewrite Hc4.
Qed.

(** X17.  A sync that returns has stored all that it fetched.  When
    [fetchComments] returns on a listing that is an array, the walk over
    the thread pages has not failed, every reply of the listing is stored,
    and every top-level comment of the listing is stored with the thread
    id, resolution and outdated flag the metadata gives for it (none, false
    and false when the metadata does not know it).  A sync that throws on
    the way, in a fetch or in an upsert, exits instead and is not spoken
    of. *)
Theorem successful_fetch_stores_what_was_fetched
    w extractSuggestion truncate prNumber (st st' : State)
    (l : list GhComment) :
  fetchComments w extractSuggestion truncate prNumber st = (Ret tt, st') →
  gh_pr_comments w (tick st) prNumber = Json (RestArray l) →
  let threadInfo :=
    foldl record_thread ∅
          (threads_read (gh_review_threads w (S (tick st)) prNumber)) in
  walk_throws (gh_review_threads w (S (tick st)) prNumber) = false ∧
  ∀ c, c ∈ l →
    if truthy_num (gh_in_reply_to_id c)
    then is_Some (replies (db st') !! gh_id c)
    else threaded threadInfo (gh_id c) (db st').
Proof.
  intros Hrun Hl threadInfo.
  destruct (walk_throws (gh_review_threads w (S (tick st)) prNumber))
    eqn:Hwalk.
  - destruct (failed_walk_exits w extractSuggestion truncate prNumber st _
                Hl Hwalk) as [st2 Hexit].
    rewrite Hexit in Hrun. discriminate Hrun.
  - split; [done|].
    destruct (run_fetchComments w extractSuggestion truncate prNumber st l
                Hl Hwalk) as (st2 & Hrun2 & Hall).
    rewrite Hrun2 in Hrun. injection Hrun as <-. exact Hall.
Qed.

(** ** The further theorems at the sample data *)

Lemma fetched_comments_are_split_in_two_witness :
  ∃ topLevel replies,
    (fetchPRComments one_thread_world DEFAULT_PR initial_state).1
    = Ret (topLevel, replies) ∧
    (topLevel ++ replies)%list
    ≡ₚ [sample_comment 1 None; sample_comment 2 (Some 1)].
Proof.
  destruct (fetched_comments_are_split_in_two one_thread_world DEFAULT_PR
              initial_state
              [sample_comment 1 None; sample_comment 2 (Some 1)] eq_refl)
    as (topLevel & replies & st' & Hrun & _ & Hperm & _).
  exists topLevel, replies. rewrite Hrun. split; [reflexivity|exact Hperm].
Defined.

Lemma sync_leaves_local_annotations_witness :
  ∃ c', comments (db (fetchComments one_thread_world no_suggestion no_truncate
                                    DEFAULT_PR sample_state).2) !! 1 = Some c' ∧
        notes c' = notes sample_row ∧
        resolved_commit c' = resolved_commit sample_row ∧
        first_seen c' = first_seen sample_row ∧
        (waiting_reply sample_row = false → waiting_reply c' = false).
Proof.
  apply (sync_leaves_local_annotations one_thread_world no_suggestion
           no_truncate DEFAULT_PR sample_state 1 sample_row).
  reflexivity.
Defined.

Lemma failed_fetch_writes_nothing_witness :
  ∃ st', fetchComments offline_world no_suggestion no_truncate DEFAULT_PR
                       sample_state = (Exit 1, st') ∧
         db st' = sample_store.
Proof.
  apply (failed_fetch_writes_nothing offline_world no_suggestion no_truncate
           DEFAULT_PR sample_state).
  left. eexists. reflexivity.
Defined.

Lemma unknown_comment_is_refused_witness :
  comments (db sample_state) !! 7 = None ∧
  snoozeComment 7 sample_state = refused 7 sample_state ∧
  unsnoozeComment 7 sample_state = refused 7 sample_state.
Proof.
  split; [reflexivity|].
  destruct (unknown_comment_is_refused one_thread_world (λ _ _, [])
              no_suggestion no_truncate 7 sample_state eq_refl)
    as (_ & Hsnooze & Hunsnooze & _).
  split; [exact Hsnooze|exact Hunsnooze].
Defined.

Lemma NOT_FOUND_answer_does_not_unresolve : ¬ confirms false NOT_FOUND_answer.
Proof. intros (r & t & H & _). discriminate H. Qed.

Lemma stale_thread_on_unresolve_witness :
  ∃ st2,
    unresolveComment one_thread_world no_suggestion no_truncate 1 sample_state
      = (Exit 1, st2) ∧
    db st2 = clearStaleThreadId 1 sample_store ∧
    comments (db st2) !! 1 = Some (set_field (F_thread_id None) sample_row) ∧
    (∀ id', id' ≠ 1 → comments (db st2) !! id' = comments sample_store !! id').
Proof.
  apply (stale_thread_on_unresolve one_thread_world no_suggestion no_truncate
           1 sample_state sample_row "T1").
  - reflexivity.
  - reflexivity.
  - discriminate.
  - exact NOT_FOUND_answer_does_not_unresolve.
  - exact NOT_FOUND_answer_reports.
Defined.

Lemma confirming_world_confirms :
  confirms true (gh_graphql_mutation confirming_world 0 ResolveThread "T1").
Proof.
  eexists _, _. split; [reflexivity|]. split; [left; reflexivity|reflexivity].
Qed.

Lemma confirmed_resolve_records_the_commit_witness :
  ∃ r st2 c2,
    resolveComment confirming_world no_suggestion no_truncate 1
                   (Some "e749aa5948") None sample_state = (r, st2) ∧
    (r = Ret tt ∨ r = Exit 1) ∧
    comments (db st2) !! 1 = Some c2 ∧
    resolved_commit c2 = Some "e749aa5948".
Proof.
  destruct (confirmed_resolve_records_the_commit confirming_world no_suggestion
              no_truncate 1 (Some "e749aa5948") None sample_state sample_state
              sample_row "T1" eq_refl eq_refl ltac:(discriminate) eq_refl
              confirming_world_confirms)
    as (r & st2 & c2 & Hrun & Hr & Hc2 & Hcommit & _).
  exists r, st2, c2. split; [exact Hrun|]. split; [exact Hr|].
  split; [exact Hc2|]. apply (Hcommit "e749aa5948"); [reflexivity|discriminate].
Defined.

Lemma notes_are_appended_witness :
  ∃ st' c',
    addNote one_thread_world 1 "fixed in the next commit" sample_state
      = (Ret tt, st') ∧
    comments (db st') !! 1 = Some c' ∧
    notes c' = Some "[2025-10-18T10:00:00.000Z] asked the bot
[2025-10-19T00:00:00.000Z] fixed in the next commit".
Proof.
  destruct (notes_are_appended one_thread_world 1 "fixed in the next commit"
              sample_state sample_row eq_refl)
    as (st' & sep & Hrun & Hc' & -> & _).
  eexists _, _. split; [exact Hrun|]. split; [exact Hc'|]. reflexivity.
Defined.

Lemma snooze_lasts_until_a_new_reply_witness :
  ∃ st1,
    snoozeComment 1 sample_state = (Ret tt, st1) ∧
    comments (db st1) !! 1 = Some (set_snooze 2 sample_row) ∧
    comments (processAutoUnsnooze (db st1)).1 !! 1 = comments (db st1) !! 1.
Proof.
  destruct (snooze_lasts_until_a_new_reply 1 sample_state sample_row eq_refl)
    as (st1 & Hrun & Hc1 & _ & Hpass & _).
  exists st1. split; [exact Hrun|]. split; [exact Hc1|exact Hpass].
Defined.

Lemma thread_metadata_maps_every_comment_witness :
  ∃ threadInfo st',
    fetchThreadMetadata one_thread_world DEFAULT_PR initial_state
      = (Ret threadInfo, st') ∧
    is_Some (threadInfo !! 1) ∧ is_Some (threadInfo !! 2).
Proof.
  destruct (thread_metadata_maps_every_comment one_thread_world DEFAULT_PR
              initial_state eq_refl)
    as (threadInfo & st' & Hrun & _ & _ & Hall).
  exists threadInfo, st'. split; [exact Hrun|].
  split.
  - apply (Hall (mkGhThread "T1" true false
                   [mkGhThreadComment 1 false; mkGhThreadComment 2 false])
             (mkGhThreadComment 1 false)).
    + apply list_elem_of_here.
    + apply list_elem_of_here.
  - apply (Hall (mkGhThread "T1" true false
                   [mkGhThreadComment 1 false; mkGhThreadComment 2 false])
             (mkGhThreadComment 2 false)).
    + apply list_elem_of_here.
    + apply list_elem_of_further, list_elem_of_here.
Defined.

Lemma successful_fetch_stores_what_was_fetched_witness :
  (fetchComments one_thread_world no_suggestion no_truncate DEFAULT_PR
                 initial_state).1 = Ret tt ∧
  is_Some (replies (db (fetchComments one_thread_world no_suggestion
                          no_truncate DEFAULT_PR initial_state).2) !! 2) ∧
  ∃ row, comments (db (fetchComments one_thread_world no_suggestion
                         no_truncate DEFAULT_PR initial_state).2) !! 1
         = Some row ∧
         thread_id row = Some "T1" ∧
         github_resolved row = true ∧ outdated row = false.
Proof.
  assert (Hrun : fetchComments one_thread_world no_suggestion no_truncate
                               DEFAULT_PR initial_state
                 = (Ret tt, (fetchComments one_thread_world no_suggestion
                               no_truncate DEFAULT_PR initial_state).2)).
  { vm_compute. reflexivity. }
  destruct (successful_fetch_stores_what_was_fetched one_thread_world
              no_suggestion no_truncate DEFAULT_PR initial_state _
              [sample_comment 1 None; sample_comment 2 (Some 1)]
              Hrun eq_refl) as (_ & Hall).
  split; [by rewrite Hrun|]. split.
  - apply (Hall (sample_comment 2 (Some 1))).
    apply list_elem_of_further, list_elem_of_here.
  - apply (Hall (sample_comment 1 None)). apply list_elem_of_here.
Defined.
